(** * MilitaryLife API: authentication, failure classification, migrations

    A shallow embedding of the session service
    ([apps/api/src/modules/auth/service.ts] and its repository layer), of the
    failure classifier ([isServiceUnavailableError]) and of the migration
    runner ([apps/api/src/db/run-migrations.ts]), with the properties the
    design document states about them.

    Conventions.
    - A JavaScript string is a Rocq [string]: the bytes of its UTF-8
      encoding.  Splitting on [;] and [=], ASCII case folding and substring
      search act on bytes exactly as they act on the code units of the
      string they encode.
    - An exception is an explicit [Throw] completion; [try]/[catch] is
      [try_catch].
    - Code that talks to the database runs in a state monad over a [World]:
      the tables, the clock, the statements issued so far, and a schedule of
      faults deciding which of the next statements fail. *)

From Stdlib Require Import ZArith List String Ascii Bool Lia Arith.
From Stdlib Require Import Permutation Sorted.
Import ListNotations.

Local Open Scope string_scope.
Local Open Scope list_scope.

(* ================================================================== *)
(** * JavaScript values that the code manipulates *)
(* ================================================================== *)

Module JS.

(** What a [throw] carries.  [URIError] is raised by
    [decodeURIComponent]; a database driver error carries the [code] and
    [message] of the [pg] error object. *)
Inductive Exn : Type :=
| URIError
| DbError (code message : string).

(** Completion of a synchronous computation: a value or an exception. *)
Inductive Completion (A : Type) : Type :=
| Normal (a : A)
| Throw (e : Exn).
Arguments Normal {A} a.
Arguments Throw {A} e.

Definition cbind {A B} (c : Completion A) (k : A -> Completion B) : Completion B :=
  match c with
  | Normal a => k a
  | Throw e => Throw e
  end.

(** [try { body } catch { handler }] *)
Definition try_catch {A} (body : Completion A) (handler : Exn -> Completion A)
  : Completion A :=
  match body with
  | Normal a => Normal a
  | Throw e => handler e
  end.

Definition byte (n : nat) : ascii := ascii_of_nat n.
Definition code (c : ascii) : nat := nat_of_ascii c.

Definition between (lo hi n : nat) : bool := (lo <=? n)%nat && (n <=? hi)%nat.

(** ** String.prototype.split with a one-character separator.
    The result is never empty: [''.split(';')] is [['']]. *)
Fixpoint split (sep : ascii) (s : string) : list string :=
  match s with
  | EmptyString => [EmptyString]
  | String c rest =>
      if Ascii.eqb c sep then EmptyString :: split sep rest
      else match split sep rest with
           | [] => [String c EmptyString]
           | piece :: pieces => String c piece :: pieces
           end
  end.

(** ** Array.prototype.join *)
Fixpoint join (sep : string) (parts : list string) : string :=
  match parts with
  | [] => EmptyString
  | [p] => p
  | p :: rest => p ++ sep ++ join sep rest
  end.

(** ** String.prototype.trim.
    White space and line terminators of ECMAScript, in UTF-8: the ASCII
    ones (U+0009..U+000D, U+0020) and the multi-byte ones (U+00A0, U+1680,
    U+2000..U+200A, U+2028, U+2029, U+202F, U+205F, U+3000, U+FEFF). *)
Definition isWs1 (a : ascii) : bool :=
  let n := code a in between 9 13 n || (n =? 32)%nat.

Definition isWs2 (a b : ascii) : bool :=
  (code a =? 194)%nat && (code b =? 160)%nat.

Definition isWs3 (a b c : ascii) : bool :=
  let x := code a in let y := code b in let z := code c in
  ((x =? 225) && (y =? 154) && (z =? 128))%nat
  || ((x =? 226)%nat && (y =? 128)%nat
      && (between 128 138 z || between 168 169 z || (z =? 175)%nat))
  || ((x =? 226) && (y =? 129) && (z =? 159))%nat
  || ((x =? 227) && (y =? 128) && (z =? 128))%nat
  || ((x =? 239) && (y =? 187) && (z =? 191))%nat.

Fixpoint trimStart (s : string) : string :=
  match s with
  | EmptyString => EmptyString
  | String a s1 =>
      if isWs1 a then trimStart s1
      else match s1 with
           | String b s2 =>
               if isWs2 a b then trimStart s2
               else match s2 with
                    | String c s3 => if isWs3 a b c then trimStart s3 else s
                    | EmptyString => s
                    end
           | EmptyString => s
           end
  end.

Fixpoint rev_onto (s acc : string) : string :=
  match s with
  | EmptyString => acc
  | String c rest => rev_onto rest (String c acc)
  end.

Definition reverse (s : string) : string := rev_onto s EmptyString.

(** [trimEnd] on the reversed string: the bytes of a white space character
    arrive last byte first. *)
Fixpoint trimStartRev (s : string) : string :=
  match s with
  | EmptyString => EmptyString
  | String a s1 =>
      if isWs1 a then trimStartRev s1
      else match s1 with
           | String b s2 =>
               if isWs2 b a then trimStartRev s2
               else match s2 with
                    | String c s3 => if isWs3 c b a then trimStartRev s3 else s
                    | EmptyString => s
                    end
           | EmptyString => s
           end
  end.

Definition trimEnd (s : string) : string := reverse (trimStartRev (reverse s)).

Definition trim (s : string) : string := trimEnd (trimStart s).

(** ** String.prototype.includes, endsWith, toLowerCase *)
Fixpoint includes (s hint : string) : bool :=
  String.prefix hint s
  || match s with
     | EmptyString => false
     | String _ rest => includes rest hint
     end.

Definition endsWith (s suffix : string) : bool :=
  String.prefix (reverse suffix) (reverse s).

(** ASCII letters are folded; the bytes of other characters are kept.
    Lower-casing a non-ASCII character never produces one of the ASCII
    letters the classifier's hints are made of, except [i] followed by a
    combining dot (from U+0130), which no hint can match across. *)
Definition lowerChar (c : ascii) : ascii :=
  let n := code c in
  if between 65 90 n then byte (n + 32) else c.

Fixpoint toLowerCase (s : string) : string :=
  match s with
  | EmptyString => EmptyString
  | String c rest => String (lowerChar c) (toLowerCase rest)
  end.

(** ** decodeURIComponent (ECMAScript Decode with an empty reserved set) *)

Definition hexVal (c : ascii) : option nat :=
  let n := code c in
  if between 48 57 n then Some (n - 48)
  else if between 65 70 n then Some (n - 55)
  else if between 97 102 n then Some (n - 87)
  else None.

(** A character of the input: itself, or the octet of a [%XX] escape. *)
Inductive Token : Type :=
| Lit (c : ascii)
| Esc (octet : nat).

(** [%] not followed by two hexadecimal digits is a [URIError]. *)
Fixpoint tokens (s : string) : Completion (list Token) :=
  match s with
  | EmptyString => Normal []
  | String c s1 =>
      if Ascii.eqb c "%"%char then
        match s1 with
        | String h1 (String h2 s3) =>
            match hexVal h1, hexVal h2 with
            | Some a, Some b =>
                cbind (tokens s3) (fun ts => Normal (Esc (16 * a + b) :: ts))
            | _, _ => Throw URIError
            end
        | _ => Throw URIError
        end
      else cbind (tokens s1) (fun ts => Normal (Lit c :: ts))
  end.

(** What the decoder still expects of a multi-octet character: how many
    continuation escapes, and the range allowed for the next one (which
    excludes overlong forms, surrogates and code points above U+10FFFF). *)
Record Pending : Type := mkPending { more : nat; lo : nat; hi : nat }.

Definition lead (b : nat) : option Pending :=
  if between 194 223 b then Some (mkPending 1 128 191)
  else if (b =? 224)%nat then Some (mkPending 2 160 191)
  else if (b =? 237)%nat then Some (mkPending 2 128 159)
  else if between 225 239 b then Some (mkPending 2 128 191)
  else if (b =? 240)%nat then Some (mkPending 3 144 191)
  else if between 241 243 b then Some (mkPending 3 128 191)
  else if (b =? 244)%nat then Some (mkPending 3 128 143)
  else None.

Fixpoint decodeTokens (ts : list Token) (p : option Pending) : Completion string :=
  match ts, p with
  | [], None => Normal EmptyString
  | [], Some _ => Throw URIError
  | Lit c :: rest, None =>
      cbind (decodeTokens rest None) (fun s => Normal (String c s))
  | Lit _ :: _, Some _ => Throw URIError
  | Esc b :: rest, None =>
      if (b <? 128)%nat then
        cbind (decodeTokens rest None) (fun s => Normal (String (byte b) s))
      else match lead b with
           | Some q =>
               cbind (decodeTokens rest (Some q))
                     (fun s => Normal (String (byte b) s))
           | None => Throw URIError
           end
  | Esc b :: rest, Some q =>
      if between (lo q) (hi q) b then
        let next := match more q with
                    | S (S k) => Some (mkPending (S k) 128 191)
                    | _ => None
                    end in
        cbind (decodeTokens rest next) (fun s => Normal (String (byte b) s))
      else Throw URIError
  end.

Definition decodeURIComponent (s : string) : Completion string :=
  cbind (tokens s) (fun ts => decodeTokens ts None).

(** ** encodeURIComponent: every octet outside the unreserved set
    [A-Z a-z 0-9 - _ . ! ~ * ' ( )] becomes [%XX]. *)
Definition unreserved (c : ascii) : bool :=
  let n := code c in
  between 65 90 n || between 97 122 n || between 48 57 n
  || existsb (Nat.eqb n) [45; 95; 46; 33; 126; 42; 39; 40; 41].

Definition hexDigit (n : nat) : ascii :=
  if (n <? 10)%nat then byte (48 + n) else byte (55 + n).

Fixpoint encodeURIComponent (s : string) : string :=
  match s with
  | EmptyString => EmptyString
  | String c rest =>
      if unreserved c then String c (encodeURIComponent rest)
      else String "%"%char
             (String (hexDigit (code c / 16))
                (String (hexDigit (code c mod 16)) (encodeURIComponent rest)))
  end.

(** Truthiness of a string: [!value] holds of the empty string only. *)
Definition truthyStr (s : string) : bool :=
  match s with
  | EmptyString => false
  | String _ _ => true
  end.

End JS.

Import JS.

(* ================================================================== *)
(** * Asynchronous code: state and exceptions *)
(* ================================================================== *)

(** An [async] function that is awaited at once runs to completion on the
    state it is given: it returns or throws, and leaves a state behind in
    both cases. *)
Definition Eff (S A : Type) : Type := S -> Completion A * S.

Definition ret {S A} (a : A) : Eff S A := fun st => (Normal a, st).

Definition bind {S A B} (m : Eff S A) (k : A -> Eff S B) : Eff S B :=
  fun st =>
    match m st with
    | (Normal a, st') => k a st'
    | (Throw e, st') => (Throw e, st')
    end.

Definition lift {S A} (c : Completion A) : Eff S A := fun st => (c, st).

Declare Scope js_scope.
Delimit Scope js_scope with js.
Notation "x <- c ;; k" := (bind c (fun x => k))
  (at level 61, c at next level, right associativity) : js_scope.
Notation "c ;;; k" := (bind c (fun _ => k))
  (at level 61, right associativity) : js_scope.
Local Open Scope js_scope.

(* ================================================================== *)
(** * Failure classifier ([isServiceUnavailableError]) *)
(* ================================================================== *)

Module Classifier.

(** The argument is [unknown]: any JavaScript value.  Objects live in a
    heap and are referred to by address, so that a chain of [cause] links
    can come back to an object already visited. *)
Inductive value : Type :=
| VUndefined
| VNull
| VBool (b : bool)
| VNum (n : Z)
| VStr (s : string)
| VObj (addr : nat).

(** The three properties the classifier reads ([ErrorLike]); a property
    that is not there reads as [undefined]. *)
Record ErrorLike : Type := mkErrorLike {
  code : value;
  message : value;
  cause : value
}.

Definition Heap : Type := list ErrorLike.

Definition noProps : ErrorLike := mkErrorLike VUndefined VUndefined VUndefined.

(** Reading the properties of [v]: a primitive has none of the three. *)
Definition props (h : Heap) (v : value) : ErrorLike :=
  match v with
  | VObj a => nth a h noProps
  | _ => noProps
  end.

Definition truthy (v : value) : bool :=
  match v with
  | VUndefined | VNull => false
  | VBool b => b
  | VNum n => negb (n =? 0)%Z
  | VStr s => truthyStr s
  | VObj _ => true
  end.

(** Equality of [Set] members: identity on objects, value on primitives. *)
Definition sameValueZero (x y : value) : bool :=
  match x, y with
  | VUndefined, VUndefined => true
  | VNull, VNull => true
  | VBool a, VBool b => Bool.eqb a b
  | VNum a, VNum b => (a =? b)%Z
  | VStr a, VStr b => String.eqb a b
  | VObj a, VObj b => (a =? b)%nat
  | _, _ => false
  end.

(** [seen.has(v)] *)
Definition has (seen : list value) (v : value) : bool :=
  existsb (sameValueZero v) seen.

Definition SERVICE_UNAVAILABLE_DB_CODES : list string :=
  [ "08000"; "08001"; "08003"; "08004"; "08006"; "08007"; "08P01"; "28P01";
    "3D000"; "42P01"; "53300"; "57P01"; "57P02"; "57P03";
    "ETIMEDOUT"; "ECONNREFUSED"; "ECONNRESET"; "EPIPE"; "ENOTFOUND"; "EAI_AGAIN" ].

Definition MESSAGE_HINTS : list string :=
  [ "connection terminated unexpectedly";
    "could not connect to server";
    "database system is starting up";
    "timeout";
    "connection refused" ].

Definition setHas (set : list string) (s : string) : bool :=
  existsb (String.eqb s) set.

(** The body of the loop up to [current = candidate.cause]: the two tests
    that return [true]. *)
Definition examine (candidate : ErrorLike) : bool :=
  let code := match code candidate with VStr s => Some s | _ => None end in
  let message := match message candidate with
                 | VStr s => toLowerCase s
                 | _ => EmptyString
                 end in
  if match code with
     | Some c => truthyStr c && setHas SERVICE_UNAVAILABLE_DB_CODES c
     | None => false
     end
  then true
  else if truthyStr message
          && existsb (fun hint => includes message hint) MESSAGE_HINTS
  then true
  else false.

(** The [while] loop, one iteration per unit of fuel.  The result carries
    the final [seen] set, most recently added first: the values examined. *)
Fixpoint walk (fuel : nat) (h : Heap) (current : value) (seen : list value)
  : option (bool * list value) :=
  match fuel with
  | O => None
  | S fuel' =>
      if truthy current && negb (has seen current) then
        let seen' := current :: seen in
        let candidate := props h current in
        if examine candidate then Some (true, seen')
        else walk fuel' h (cause candidate) seen'
      else Some (false, seen)
  end.

(** Fuel that always suffices: every object of the heap once, one value
    that is not a heap object, and the final test of the loop condition. *)
Definition enough (h : Heap) : nat := S (S (List.length h)).

(** The heap objects the loop has not visited yet. *)
Definition unseen (h : Heap) (seen : list value) : nat :=
  List.length (filter (fun a => negb (has seen (VObj a))) (seq 0 (List.length h))).

Definition isServiceUnavailableError (h : Heap) (error : value) : option bool :=
  option_map fst (walk (enough h) h error []).

Definition toServiceUnavailableResponse : list (string * string) :=
  [("error", "Service temporarily unavailable")].

(** The values on the chain of [cause] links that starts at a value. *)
Inductive Reach (h : Heap) : value -> value -> Prop :=
| reach_here : forall v, Reach h v v
| reach_cause : forall v x, Reach h (cause (props h v)) x -> Reach h v x.

(** [hint] occurs in [s]. *)
Definition Substring (hint s : string) : Prop :=
  exists before after, s = (before ++ hint ++ after)%string.

Definition KnownCode (c : ErrorLike) : Prop :=
  exists s, code c = VStr s /\ In s SERVICE_UNAVAILABLE_DB_CODES.

(** The message as it is contains a hint. *)
Definition MessageHint (c : ErrorLike) : Prop :=
  exists s hint, message c = VStr s /\ In hint MESSAGE_HINTS /\ Substring hint s.

(** The lower-cased message contains a hint. *)
Definition FoldedMessageHint (c : ErrorLike) : Prop :=
  exists s hint,
    message c = VStr s /\ In hint MESSAGE_HINTS /\ Substring hint (toLowerCase s).

(** An error whose message is in upper case, and a cycle of two errors. *)
Definition shouting : Heap := [ mkErrorLike VUndefined (VStr "TIMEOUT") VUndefined ].

Definition cycle : Heap :=
  [ mkErrorLike (VStr "XX000") (VStr "wrapped") (VObj 1);
    mkErrorLike (VNum 8006) VUndefined (VObj 0) ].

End Classifier.

(* ================================================================== *)
(** * Session store and session service *)
(* ================================================================== *)

Module Auth.

(** [utils/crypto.js] is a module of its own: the service sees its
    functions as an interface.  [generateToken] and [generateUuid] draw
    random values; the service functions below receive the values drawn as
    arguments. *)
Class Crypto : Type := {
  sha256 : string -> string;
  verifyPassword : string -> string -> bool
}.

(** [Date.prototype.toUTCString], used to serialise the cookie expiry. *)
Class DateFormat : Type := {
  toUTCString : Z -> string
}.

(** ** Tables.  A timestamp is a number of milliseconds; it is written as
    an ISO string and cast back to [timestamptz] on insertion, which is the
    identity at this precision. *)
Record DbUser : Type := mkUser {
  u_id : string;
  u_email : string;
  u_password_hash : string
}.

Record SessionRow : Type := mkSession {
  s_id : string;
  s_user_id : string;
  s_token_hash : string;
  s_expires_at : Z;
  s_last_seen_at : option Z   (* [None]: left to the column default *)
}.

Record ProfileRow : Type := mkProfile {
  p_id : string;
  p_user_id : string
}.

Record Db : Type := mkDb {
  users : list DbUser;
  sessions : list SessionRow;
  profiles : list ProfileRow
}.

(** The row [findSessionByTokenHash] selects. *)
Record DbSessionLookup : Type := mkLookup {
  session_id : string;
  user_id : string;
  l_email : string;
  expires_at : Z;
  profile_id : option string
}.

Record SessionPrincipal : Type := mkPrincipal {
  sid : string;
  sessionId : string;
  userId : string;
  email : string;
  profileId : option string;
  expiresAt : Z
}.

(** ** The statements the repository sends. *)
Inductive Statement : Type :=
| SelectUserByEmail (email : string)
| SelectUserById (userId : string)
| InsertSession (id userId tokenHash : string) (expiresAt : Z)
| SelectSessionByTokenHash (tokenHash : string)
| UpdateSessionLastSeen (sessionId : string)
| DeleteSessionByTokenHash (tokenHash : string)
| DeleteSessionsByUserId (userId : string).

(** ** Request and reply. *)
Record Env : Type := mkEnv {
  NODE_ENV : string;
  SESSION_DAYS : Z
}.

(** [request.headers.cookie]: absent, a string, or an array of strings. *)
Inductive HeaderValue : Type :=
| HAbsent
| HSingle (s : string)
| HList (l : list string).

(** [cookies]: [None] when no cookie middleware decorated the request,
    otherwise the [sid] it parsed, if any. *)
Record Request : Type := mkRequest {
  cookies : option (option string);
  headerCookie : HeaderValue;
  env : Env
}.

(** The bodies the service sends are flat objects of strings and nulls. *)
Inductive JsonValue : Type :=
| JNull
| JString (s : string).

Definition Json : Type := list (string * JsonValue).

Record CookieOptions : Type := mkCookieOptions {
  httpOnly : bool;
  sameSite : string;
  secure : bool;
  path : string;
  expires : option Z
}.

Inductive CookieCall : Type :=
| SetCookie (name value : string) (options : CookieOptions)
| ClearCookie (name : string) (options : CookieOptions).

(** The reply object: [cookiePlugin] tells whether [setCookie] and
    [clearCookie] are functions on it. *)
Record Reply : Type := mkReply {
  cookiePlugin : bool;
  statusCode : nat;
  headers : list (string * string);
  cookieCalls : list CookieCall;
  sent : bool;
  payload : option Json
}.

(** [request.auth]: not assigned yet, [null], or a principal. *)
Inductive AuthSlot : Type :=
| Unset
| Anonymous
| Bound (p : SessionPrincipal).

(** The database with its clock; [faults] says, for the statements to
    come, which ones the driver rejects and with what error. *)
Record World : Type := mkWorld {
  db : Db;
  now : Z;
  faults : list (option Exn);
  issued : list Statement
}.

(** The state one request handler runs in. *)
Record State : Type := mkState {
  world : World;
  auth : AuthSlot;
  reply : Reply
}.

Definition M (A : Type) : Type := Eff State A.

(** [executor.query]: the statement is recorded; it fails if the schedule
    says so, else it runs on the tables at the current time. *)
Definition query {A} (stmt : Statement) (run : Db -> Z -> A * Db) : M A :=
  fun st =>
    let w := world st in
    let attempted d := mkWorld d (now w) (tl (faults w)) (issued w ++ [stmt]) in
    match hd None (faults w) with
    | Some e => (Throw e, mkState (attempted (db w)) (auth st) (reply st))
    | None =>
        let (a, d) := run (db w) (now w) in
        (Normal a, mkState (attempted d) (auth st) (reply st))
    end.

(** ** Repository *)

(** [lower(...)] of SQL. *)
Definition lower (s : string) : string := toLowerCase s.

(** The effect of each statement on the tables.  A [SELECT] answers with
    its first row, [rows[0] ?? null]. *)
Definition userByEmail (d : Db) (email : string) : option DbUser :=
  hd_error (filter (fun u => String.eqb (lower (u_email u)) (lower email)) (users d)).

Definition userById (d : Db) (userId : string) : option DbUser :=
  hd_error (filter (fun u => String.eqb (u_id u) userId) (users d)).

Definition withSession (d : Db) (row : SessionRow) : Db :=
  mkDb (users d) (sessions d ++ [row]) (profiles d).

(** The join: for a session, the users it belongs to, each with its
    profiles, or with a null profile when it has none. *)
Definition joinRows (d : Db) (s : SessionRow) : list DbSessionLookup :=
  flat_map
    (fun u =>
       let row p := mkLookup (s_id s) (s_user_id s) (u_email u) (s_expires_at s) p in
       match filter (fun p => String.eqb (p_user_id p) (u_id u)) (profiles d) with
       | [] => [row None]
       | ps => map (fun p => row (Some (p_id p))) ps
       end)
    (filter (fun u => String.eqb (u_id u) (s_user_id s)) (users d)).

(** [WHERE s.token_hash = $1 AND s.expires_at > now()] *)
Definition liveWithHash (t : Z) (tokenHash : string) (s : SessionRow) : bool :=
  String.eqb (s_token_hash s) tokenHash && (t <? s_expires_at s)%Z.

Definition selectSessions (d : Db) (t : Z) (tokenHash : string) : list DbSessionLookup :=
  flat_map (joinRows d) (filter (liveWithHash t tokenHash) (sessions d)).

Definition sessionByTokenHash (d : Db) (t : Z) (tokenHash : string)
  : option DbSessionLookup :=
  hd_error (selectSessions d t tokenHash).

Definition touched (d : Db) (t : Z) (sessionId : string) : Db :=
  mkDb (users d)
       (map (fun s =>
               if String.eqb (s_id s) sessionId
               then mkSession (s_id s) (s_user_id s) (s_token_hash s)
                              (s_expires_at s) (Some t)
               else s)
            (sessions d))
       (profiles d).

Definition withoutTokenHash (d : Db) (tokenHash : string) : Db :=
  mkDb (users d)
       (filter (fun s => negb (String.eqb (s_token_hash s) tokenHash)) (sessions d))
       (profiles d).

Definition withoutSessionsOf (d : Db) (userId : string) : Db :=
  mkDb (users d)
       (filter (fun s => negb (String.eqb (s_user_id s) userId)) (sessions d))
       (profiles d).

Definition findUserByEmail (email : string) : M (option DbUser) :=
  query (SelectUserByEmail email) (fun d _ => (userByEmail d email, d)).

Definition findUserById (userId : string) : M (option DbUser) :=
  query (SelectUserById userId) (fun d _ => (userById d userId, d)).

Definition createSession (id userId tokenHash : string) (expiresAtIso : Z) : M unit :=
  query (InsertSession id userId tokenHash expiresAtIso)
    (fun d _ => (tt, withSession d (mkSession id userId tokenHash expiresAtIso None))).

Definition findSessionByTokenHash (tokenHash : string) : M (option DbSessionLookup) :=
  query (SelectSessionByTokenHash tokenHash)
    (fun d t => (sessionByTokenHash d t tokenHash, d)).

Definition touchSession (sessionId : string) : M unit :=
  query (UpdateSessionLastSeen sessionId) (fun d t => (tt, touched d t sessionId)).

Definition deleteSessionByTokenHash (tokenHash : string) : M unit :=
  query (DeleteSessionByTokenHash tokenHash) (fun d _ => (tt, withoutTokenHash d tokenHash)).

Definition deleteSessionsByUserId (userId : string) : M unit :=
  query (DeleteSessionsByUserId userId) (fun d _ => (tt, withoutSessionsOf d userId)).

(** ** Service *)

Definition getCookieOptions (isProd : bool) (expiresAt : Z) : CookieOptions :=
  mkCookieOptions true "lax" isProd "/" (Some expiresAt).

(** The [for] loop of [parseCookieHeader] over the entries of the header. *)
Fixpoint parseEntries (entries : list string) (key : string)
  : Completion (option string) :=
  match entries with
  | [] => Normal None
  | entry :: rest =>
      match split "="%char (trim entry) with
      | [] => parseEntries rest key
      | rawKey :: valueParts =>
          if negb (String.eqb rawKey key) then parseEntries rest key
          else
            let value := join "=" valueParts in
            if negb (truthyStr value) then Normal None
            else try_catch
                   (cbind (decodeURIComponent value) (fun d => Normal (Some d)))
                   (fun _ => Normal (Some value))
      end
  end.

Definition parseCookieHeader (header : option string) (key : string)
  : Completion (option string) :=
  match header with
  | None => Normal None
  | Some h =>
      if negb (truthyStr h) then Normal None
      else parseEntries (split ";"%char h) key
  end.

Definition getSidFromRequest (request : Request) : Completion (option string) :=
  let decorated := match cookies request with
                   | Some (Some v) => Some v
                   | _ => None
                   end in
  if match decorated with Some v => truthyStr v | None => false end
  then Normal decorated
  else
    let cookieHeader := match headerCookie request with
                        | HSingle s => Some s
                        | _ => None
                        end in
    parseCookieHeader cookieHeader "sid".

(** Mutations of the reply and of [request.auth]. *)
Definition modifyReply (f : Reply -> Reply) : M unit :=
  fun st => (Normal tt, mkState (world st) (auth st) (f (reply st))).

Definition setAuth (a : AuthSlot) : M unit :=
  fun st => (Normal tt, mkState (world st) a (reply st)).

Definition getReply : M Reply := fun st => (Normal (reply st), st).

(** [new Date()] *)
Definition newDate : M Z := fun st => (Normal (now (world st)), st).

Definition replyCode (n : nat) : M unit :=
  modifyReply (fun r => mkReply (cookiePlugin r) n (headers r) (cookieCalls r)
                                (sent r) (payload r)).

Definition replySend (body : option Json) : M unit :=
  modifyReply (fun r => mkReply (cookiePlugin r) (statusCode r) (headers r)
                                (cookieCalls r) true body).

Definition replyHeader (name value : string) : M unit :=
  modifyReply (fun r => mkReply (cookiePlugin r) (statusCode r)
                                (headers r ++ [(name, value)]) (cookieCalls r)
                                (sent r) (payload r)).

Definition replyCookieCall (c : CookieCall) : M unit :=
  modifyReply (fun r => mkReply (cookiePlugin r) (statusCode r) (headers r)
                                (cookieCalls r ++ [c]) (sent r) (payload r)).

Definition isProduction (request : Request) : bool :=
  String.eqb (NODE_ENV (env request)) "production".

Section Service.

Context {crypto : Crypto} {dates : DateFormat}.

Definition setSessionCookie (sid : string) (isProd : bool) (expiresAt : Z) : M unit :=
  r <- getReply ;;
  if cookiePlugin r then
    replyCookieCall (SetCookie "sid" sid (getCookieOptions isProd expiresAt))
  else
    let secure := if isProd then "; Secure" else "" in
    let serialized :=
      ("sid=" ++ encodeURIComponent sid ++ "; Path=/; HttpOnly; SameSite=Lax"
         ++ secure ++ "; Expires=" ++ toUTCString expiresAt)%string in
    replyHeader "set-cookie" serialized.

Definition clearSessionCookie (isProd : bool) : M unit :=
  r <- getReply ;;
  if cookiePlugin r then
    replyCookieCall (ClearCookie "sid" (mkCookieOptions true "lax" isProd "/" None))
  else
    let secure := if isProd then "; Secure" else "" in
    replyHeader "set-cookie"
      ("sid=; Path=/; HttpOnly; SameSite=Lax" ++ secure
         ++ "; Expires=Thu, 01 Jan 1970 00:00:00 GMT")%string.

(** [setDate(getDate() + days)] in a time zone without clock changes. *)
Definition buildSessionExpiry (days : Z) : M Z :=
  expires <- newDate ;;
  ret (expires + days * 86400000)%Z.

Definition attachAuth (request : Request) : M unit :=
  sid <- lift (getSidFromRequest request) ;;
  match sid with
  | None => setAuth Anonymous
  | Some sid =>
      if negb (truthyStr sid) then setAuth Anonymous
      else
        let tokenHash := sha256 sid in
        session <- findSessionByTokenHash tokenHash ;;
        match session with
        | None => setAuth Anonymous
        | Some session =>
            touchSession (session_id session) ;;;
            setAuth (Bound (mkPrincipal sid (session_id session) (user_id session)
                                        (l_email session) (profile_id session)
                                        (expires_at session)))
        end
  end.

Definition invalidCredentials : Json := [("error", JString "Invalid credentials")].

Definition nullable (o : option string) : JsonValue :=
  match o with
  | Some s => JString s
  | None => JNull
  end.

(** [sid] and [sessionUuid] are the values [generateToken()] and
    [generateUuid()] return in this call. *)
Definition loginUser (request : Request) (email password : string)
    (sid sessionUuid : string) : M unit :=
  user <- findUserByEmail email ;;
  match user with
  | None => replyCode 401 ;;; replySend (Some invalidCredentials)
  | Some user =>
      let valid := verifyPassword password (u_password_hash user) in
      if negb valid then replyCode 401 ;;; replySend (Some invalidCredentials)
      else
        deleteSessionsByUserId (u_id user) ;;;
        let tokenHash := sha256 sid in
        expiresAt <- buildSessionExpiry (SESSION_DAYS (env request)) ;;
        createSession sessionUuid (u_id user) tokenHash expiresAt ;;;
        profile <- findSessionByTokenHash tokenHash ;;
        setSessionCookie sid (isProduction request) expiresAt ;;;
        replyCode 200 ;;;
        replySend (Some [("userId", JString (u_id user));
                         ("email", JString (u_email user));
                         ("profileId",
                          nullable (match profile with
                                    | Some row => profile_id row
                                    | None => None
                                    end))])
  end.

Definition logoutUser (request : Request) : M unit :=
  sid <- lift (getSidFromRequest request) ;;
  (match sid with
   | Some sid =>
       if truthyStr sid then deleteSessionByTokenHash (sha256 sid) else ret tt
   | None => ret tt
   end) ;;;
  clearSessionCookie (isProduction request) ;;;
  replyCode 204 ;;;
  replySend None.

Definition unauthorized : Json := [("error", JString "Unauthorized")].

Definition requireAuth (request : Request) : M unit :=
  attachAuth request ;;;
  a <- (fun st => (Normal (auth st), st)) ;;
  match a with
  | Bound _ => ret tt
  | _ => replyCode 401 ;;; replySend (Some unauthorized)
  end.

End Service.

(** A request starts with [request.auth] unassigned and a fresh reply. *)
Definition freshReply (plugin : bool) : Reply := mkReply plugin 200 [] [] false None.

Definition start (plugin : bool) (w : World) : State :=
  mkState w Unset (freshReply plugin).

(** The same database at another time, with another fault schedule. *)
Definition later (t : Z) (fs : list (option Exn)) (w : World) : World :=
  mkWorld (db w) t fs (issued w).

(** The reply clears the [sid] cookie: through the cookie plugin, or with
    a [set-cookie] header whose value is empty and which expired in 1970. *)
Definition clearsSid (isProd : bool) (r : Reply) : Prop :=
  if cookiePlugin r
  then cookieCalls r = [ClearCookie "sid" (mkCookieOptions true "lax" isProd "/" None)]
       /\ headers r = []
  else exists attributes,
         headers r = [("set-cookie",
                       ("sid=; " ++ attributes
                          ++ "; Expires=Thu, 01 Jan 1970 00:00:00 GMT")%string)]
         /\ cookieCalls r = [].

(** The raw value of the first cookie named [key] in a header: the text
    after the first [=] of the first entry whose name, once the entry is
    trimmed, is [key]. *)
Definition entryName (entry : string) : string :=
  hd EmptyString (split "="%char (trim entry)).

Definition entryValue (entry : string) : string :=
  join "=" (tl (split "="%char (trim entry))).

Definition rawCookie (header key : string) : option string :=
  option_map entryValue
    (find (fun entry => String.eqb (entryName entry) key) (split ";"%char header)).

(** The value percent-decoded, or as it is when it does not decode. *)
Definition decodedOrRaw (value : string) : string :=
  match decodeURIComponent value with
  | Normal decoded => decoded
  | Throw _ => value
  end.

(** What is extracted from a header for the cookie [key]. *)
Definition cookieValue (header key : string) : option string :=
  match rawCookie header key with
  | Some value => if truthyStr value then Some (decodedOrRaw value) else None
  | None => None
  end.

(** The [sid] the cookie middleware put on the request, when it is a
    non-empty string. *)
Definition decoratedSid (request : Request) : option string :=
  match cookies request with
  | Some (Some v) => if truthyStr v then Some v else None
  | _ => None
  end.

Definition rawHeader (request : Request) : option string :=
  match headerCookie request with
  | HSingle s => Some s
  | _ => None
  end.

(** The world once a statement has been sent. *)
Definition sent_to (w : World) (d : Db) (stmt : Statement) : World :=
  mkWorld d (now w) (tl (faults w)) (issued w ++ [stmt]).

(** The stored sessions of a user, and whether a fingerprint is stored. *)
Definition sessionsOf (d : Db) (userId : string) : list SessionRow :=
  filter (fun s => String.eqb (s_user_id s) userId) (sessions d).

Definition Unused (d : Db) (tokenHash : string) : Prop :=
  forall s, In s (sessions d) -> s_token_hash s <> tokenHash.

(** The token a request carries, as [getSidFromRequest] extracts it. *)
Definition sidOf (request : Request) : option string :=
  match decoratedSid request with
  | Some v => Some v
  | None => match rawHeader request with
            | Some h => cookieValue h "sid"
            | None => None
            end
  end.

(** ** A small instance to run the service on. *)
Definition toyCrypto : Crypto :=
  {| sha256 := fun token => ("sha256:" ++ token)%string;
     verifyPassword := fun password stored =>
                         String.eqb stored ("argon2:" ++ password)%string |}.

Definition toyDates : DateFormat := {| toUTCString := fun _ => "Fri, 01 Jan 2027 00:00:00 GMT" |}.

Definition devEnv : Env := mkEnv "development" 7.

Definition alice : DbUser := mkUser "u-1" "Alice@Example.com" "argon2:hunter2".

Definition aliceSession : SessionRow :=
  mkSession "s-1" "u-1" "sha256:tok-1" 5000 None.

Definition oneUser : Db := mkDb [alice] [] [mkProfile "p-1" "u-1"].

Definition loggedIn : Db := mkDb [alice] [aliceSession] [mkProfile "p-1" "u-1"].

Definition plainRequest (header : HeaderValue) : Request := mkRequest None header devEnv.

Definition adminShutdown : Exn := DbError "57P01" "terminating connection".

(** A database that answers every statement, and one that answers the
    first statement and rejects the second. *)
Definition healthy (d : Db) (t : Z) : World := mkWorld d t [] [].

Definition failingSecond (d : Db) (t : Z) : World :=
  mkWorld d t [None; Some adminShutdown] [].

End Auth.

(* ================================================================== *)
(** * Migration runner *)
(* ================================================================== *)

Module Migrations.

(** ** Array.prototype.sort with a comparator: a stable sort.  An element
    goes before the first element of the sorted rest that does not compare
    below it, so elements that compare equal keep their order. *)
Section Sort.

Variable compareFn : string -> string -> Z.

Fixpoint insert (x : string) (sorted : list string) : list string :=
  match sorted with
  | [] => [x]
  | y :: rest =>
      if (compareFn x y <=? 0)%Z then x :: y :: rest else y :: insert x rest
  end.

Fixpoint sort (names : list string) : list string :=
  match names with
  | [] => []
  | x :: rest => insert x (sort rest)
  end.

End Sort.

(** [a] goes before [b], or they compare equal. *)
Definition Below (compareFn : string -> string -> Z) (a b : string) : Prop :=
  (compareFn a b <= 0)%Z.

(** ** String.prototype.localeCompare

    The built-in compares by the collation of the host's locale, not by
    code units.  It is written here as the root collation of the Unicode
    collation data (the one the English locales use) on ASCII text, at the
    default strength.  Characters are first compared by their primary
    weight: white space, then punctuation, then symbols, then the dollar
    sign, then the digits, then the letters, a letter having the same
    weight in both cases.  Names that do not differ there are compared by
    case, lower case first.  Control characters have no weight and are
    skipped.  Bytes of characters outside ASCII are placed after the
    letters in byte order, which is not their collation: the facts below
    that depend on the order are stated for names in printable ASCII. *)

(** The ASCII characters that have a primary weight, by code, in ascending
    order of weight: tab to carriage return and space; low line, hyphen,
    comma, semicolon, colon, exclamation mark, question mark, full stop,
    apostrophe, quotation mark, the brackets, commercial at, asterisk,
    solidus, reverse solidus, ampersand, number sign, per cent; grave
    accent, circumflex, plus, less-than, equals, greater-than, vertical
    line, tilde; dollar; the digits; the letters. *)
Definition collationOrder : list nat :=
  [ 9; 10; 11; 12; 13; 32;
    95; 45; 44; 59; 58; 33; 63; 46; 39; 34; 40; 41; 91; 93; 123; 125;
    64; 42; 47; 92; 38; 35; 37;
    96; 94; 43; 60; 61; 62; 124; 126;
    36;
    48; 49; 50; 51; 52; 53; 54; 55; 56; 57;
    97; 98; 99; 100; 101; 102; 103; 104; 105; 106; 107; 108; 109;
    110; 111; 112; 113; 114; 115; 116; 117; 118; 119; 120; 121; 122 ]%nat.

(** The place of a code in the order, counted from 1. *)
Fixpoint rank (n : nat) (order : list nat) : option nat :=
  match order with
  | [] => None
  | m :: rest => if (n =? m)%nat then Some 1%nat else option_map S (rank n rest)
  end.

Definition isUpper (c : ascii) : bool := between 65 90 (code c).

Definition primary (c : ascii) : option nat :=
  let n := code c in
  if (128 <=? n)%nat then Some (n + 128)%nat
  else rank (if isUpper c then n + 32 else n)%nat collationOrder.

Definition tertiary (c : ascii) : nat := if isUpper c then 1%nat else 0%nat.

Fixpoint primaries (s : string) : list nat :=
  match s with
  | EmptyString => []
  | String c rest =>
      match primary c with
      | Some weight => weight :: primaries rest
      | None => primaries rest
      end
  end.

Fixpoint tertiaries (s : string) : list nat :=
  match s with
  | EmptyString => []
  | String c rest =>
      match primary c with
      | Some _ => tertiary c :: tertiaries rest
      | None => tertiaries rest
      end
  end.

(** The sort key of a string: its primary weights, a separator below every
    weight, its case weights.  Two strings compare as their keys do. *)
Definition sortKey (s : string) : list nat :=
  primaries s ++ 0%nat :: tertiaries s.

Fixpoint compareKeys (k1 k2 : list nat) : comparison :=
  match k1, k2 with
  | [], [] => Eq
  | [], _ :: _ => Lt
  | _ :: _, [] => Gt
  | x :: rest1, y :: rest2 =>
      match Nat.compare x y with
      | Eq => compareKeys rest1 rest2
      | c => c
      end
  end.

Definition localeCompare (a b : string) : Z :=
  match compareKeys (sortKey a) (sortKey b) with
  | Lt => (-1)%Z
  | Eq => 0%Z
  | Gt => 1%Z
  end.

(** A name in printable ASCII. *)
Fixpoint plainName (s : string) : bool :=
  match s with
  | EmptyString => true
  | String c rest => between 32 126 (code c) && plainName rest
  end.

(** The character that has a given primary weight and case weight. *)
Definition charOf (weight case : nat) : ascii :=
  let n := nth (weight - 1) collationOrder 0%nat in
  ascii_of_nat (if (case =? 1)%nat then n - 32 else n).

Inductive Statement : Type :=
| CreateLedgerIfNotExists
| SelectLedger (filename : string)
| RunBatch (sql : string)
| InsertLedger (filename : string).

(** The database as the runner sees it: the rows of [schema_migrations]
    ([None] while the table does not exist) and the batches executed so
    far, each with the file it was read from.  [faults] is the schedule of
    failures of the statements to come. *)
Record World : Type := mkWorld {
  ledger : option (list string);
  applied : list (string * string);
  faults : list (option Exn);
  issued : list Statement
}.

Definition M (A : Type) : Type := Eff World A.

(** The migrations directory: names with contents. *)
Definition Dir : Type := list (string * string).

Definition readdir (dir : Dir) : list string := map fst dir.

Definition readFile (dir : Dir) (filename : string) : M string :=
  match find (fun f => String.eqb (fst f) filename) dir with
  | Some f => ret (snd f)
  | None => lift (Throw (DbError "ENOENT" filename))
  end.

Definition undefinedTable : Exn := DbError "42P01" "relation does not exist".
Definition uniqueViolation : Exn := DbError "23505" "duplicate key value".

(** [client.query]: recorded, then rejected by the schedule or run. *)
Definition query {A} (stmt : Statement)
    (run : World -> Completion A * World) : M A :=
  fun w =>
    let w1 := mkWorld (ledger w) (applied w) (tl (faults w)) (issued w ++ [stmt]) in
    match hd None (faults w) with
    | Some e => (Throw e, w1)
    | None => run w1
    end.

Definition createLedger : M unit :=
  query CreateLedgerIfNotExists
    (fun w =>
       (Normal tt,
        mkWorld (match ledger w with None => Some [] | Some rows => Some rows end)
                (applied w) (faults w) (issued w))).

(** The row count of the [SELECT]. *)
Definition selectLedger (filename : string) : M nat :=
  query (SelectLedger filename)
    (fun w =>
       match ledger w with
       | None => (Throw undefinedTable, w)
       | Some rows =>
           (Normal (List.length (filter (String.eqb filename) rows)), w)
       end).

Definition runBatch (filename sql : string) : M unit :=
  query (RunBatch sql)
    (fun w =>
       (Normal tt,
        mkWorld (ledger w) (applied w ++ [(filename, sql)]) (faults w) (issued w))).

(** [filename] is the primary key of the ledger. *)
Definition insertLedger (filename : string) : M unit :=
  query (InsertLedger filename)
    (fun w =>
       match ledger w with
       | None => (Throw undefinedTable, w)
       | Some rows =>
           if existsb (String.eqb filename) rows then (Throw uniqueViolation, w)
           else (Normal tt,
                 mkWorld (Some (rows ++ [filename])) (applied w) (faults w) (issued w))
       end).

(** The [for] loop over the sorted files. *)
Fixpoint applyFiles (dir : Dir) (files : list string) : M unit :=
  match files with
  | [] => ret tt
  | filename :: rest =>
      rowCount <- selectLedger filename ;;
      if (0 <? rowCount)%nat then applyFiles dir rest
      else
        sql <- readFile dir filename ;;
        runBatch filename sql ;;;
        insertLedger filename ;;;
        applyFiles dir rest
  end.

Definition migrationFiles (dir : Dir) : list string :=
  sort localeCompare (filter (fun name => endsWith name ".sql") (readdir dir)).

(** Releasing the client and ending the pool in [finally] leave the
    database as it is and let the exception, if any, through. *)
Definition runMigrations (dir : Dir) : M unit :=
  createLedger ;;;
  applyFiles dir (migrationFiles dir).

(** The files a complete run applies, in order, on a ledger with the given
    rows: those not recorded yet, each once. *)
Fixpoint pending (files rows : list string) : list string :=
  match files with
  | [] => []
  | filename :: rest =>
      if existsb (String.eqb filename) rows then pending rest rows
      else filename :: pending rest (rows ++ [filename])
  end.

(** The text of a file of the directory. *)
Definition content (dir : Dir) (filename : string) : string :=
  match find (fun f => String.eqb (fst f) filename) dir with
  | Some f => snd f
  | None => EmptyString
  end.

(** The batches of the given files, as the database records them. *)
Definition batchesOf (dir : Dir) (files : list string) : list (string * string) :=
  map (fun f => (f, content dir f)) files.

(** The statements a complete run sends in the loop, on a ledger with the
    given rows: for a recorded file the [SELECT] alone, for any other the
    [SELECT], the batch of the file and the [INSERT] of its name. *)
Fixpoint script (dir : Dir) (files rows : list string) : list Statement :=
  match files with
  | [] => []
  | filename :: rest =>
      if existsb (String.eqb filename) rows
      then SelectLedger filename :: script dir rest rows
      else SelectLedger filename :: RunBatch (content dir filename)
             :: InsertLedger filename :: script dir rest (rows ++ [filename])
  end.

(** How many times the batch of a file has been executed. *)
Definition timesApplied (filename : string) (w : World) : nat :=
  List.length (filter (fun e => String.eqb (fst e) filename) (applied w)).

Definition ledgerRows (w : World) : list string :=
  match ledger w with
  | Some rows => rows
  | None => []
  end.

Definition inLedger (w : World) (filename : string) : bool :=
  existsb (String.eqb filename) (ledgerRows w).

(** The same database with another fault schedule. *)
Definition refault (fs : list (option Exn)) (w : World) : World :=
  mkWorld (ledger w) (applied w) fs (issued w).

(** The order the design document names: the lexicographic order of
    strings, character code by character code. *)
Definition LexLe (a b : string) : Prop := String.leb a b = true.

Definition fresh : World := mkWorld None [] [] [].

Definition twoFiles : Dir :=
  [ ("002_b.sql", "CREATE TABLE b ()");
    ("README.md", "notes");
    ("001_a.sql", "CREATE TABLE a ()") ].

(** Names in both cases, and numbers that are not padded. *)
Definition mixedCase : Dir :=
  [ ("B.sql", "CREATE TABLE b ()");
    ("a.sql", "CREATE TABLE a ()") ].

Definition numbered : Dir :=
  [ ("10_more.sql", "CREATE TABLE c ()");
    ("2_next.sql", "CREATE TABLE b ()");
    ("1_init.sql", "CREATE TABLE a ()") ].

End Migrations.

(* ================================================================== *)
(** * Text that survives percent-encoding *)
(* ================================================================== *)

Module Text.

(** Every character of the string passes the test. *)
Fixpoint allChars (test : ascii -> bool) (s : string) : bool :=
  match s with
  | EmptyString => true
  | String c rest => test c && allChars test rest
  end.

(** The bytes from here on are well-formed UTF-8, [p] being what is still
    expected of the character under way: the same automaton as the one
    [decodeURIComponent] runs over escapes.  A JavaScript string without
    lone surrogates is such a byte string. *)
Fixpoint utf8From (s : string) (p : option Pending) : bool :=
  match s, p with
  | EmptyString, None => true
  | EmptyString, Some _ => false
  | String c rest, None =>
      if (code c <? 128)%nat then utf8From rest None
      else match lead (code c) with
           | Some q => utf8From rest (Some q)
           | None => false
           end
  | String c rest, Some q =>
      if between (lo q) (hi q) (code c) then
        utf8From rest (match more q with
                       | S (S k) => Some (mkPending (S k) 128 191)
                       | _ => None
                       end)
      else false
  end.

Definition wellFormed (s : string) : bool := utf8From s None.

(** The token stream of an encoded string: unreserved characters as they
    are, every other octet as an escape. *)
Definition encoded (s : string) : list Token :=
  map (fun c => if unreserved c then Lit c else Esc (code c)) (list_ascii_of_string s).

(** What [encodeURIComponent] writes: unreserved characters and [%]. *)
Definition written (c : ascii) : bool := unreserved c || Ascii.eqb c "%"%char.

(** An ASCII character that [trim] leaves alone. *)
Definition solid (c : ascii) : bool := (code c <? 128)%nat && negb (isWs1 c).

End Text.

(* ================================================================== *)
(** * The rest of the session service and its routes *)
(* ================================================================== *)

Module Account.

Import Auth.

(** [try { body } catch (err) { handler(err) }] around awaited code. *)
Definition catch {S A} (body : Eff S A) (handler : Exn -> Eff S A) : Eff S A :=
  fun st =>
    match body st with
    | (Normal a, st') => (Normal a, st')
    | (Throw e, st') => handler e st'
    end.

Definition getAuth : M AuthSlot := fun st => (Normal (auth st), st).

Definition getMe : M unit :=
  a <- getAuth ;;
  match a with
  | Bound principal =>
      user <- findUserById (userId principal) ;;
      match user with
      | None => replyCode 401 ;;; replySend (Some unauthorized)
      | Some user =>
          replyCode 200 ;;;
          replySend (Some [("userId", JString (u_id user));
                           ("email", JString (u_email user));
                           ("profileId", nullable (profileId principal))])
      end
  | _ => replyCode 401 ;;; replySend (Some unauthorized)
  end.

Definition emailTaken : Json := [("error", JString "Email already registered")].

(** What a route handler can catch: the error of a rejected statement or
    of a built-in, or what [parseOrThrow] throws on a body that does not
    match the schema. *)
Inductive Caught (V : Type) : Type :=
| Raised (e : Exn)
| Invalid (v : V).
Arguments Raised {V} e.
Arguments Invalid {V} v.

Section Routes.

Context {crypto : Crypto} {dates : DateFormat}.

(** [utils/validate.js] is a module of its own: [V] is what [parseOrThrow]
    throws, which carries no [code], and [sendValidationError] is what
    answers it. *)
Variable V : Type.
Variable sendValidationError : Caught V -> M unit.

Definition sendAuthError (err : Caught V) : M unit :=
  match err with
  | Raised (DbError code _) =>
      if String.eqb code "23505"
      then replyCode 409 ;;; replySend (Some emailTaken)
      else sendValidationError err
  | _ => sendValidationError err
  end.

(** [POST /login]; [body] is what [parseOrThrow(loginSchema, request.body)]
    returns or throws. *)
Definition loginRoute (request : Request) (body : V + string * string)
    (sid sessionUuid : string) : M unit :=
  match body with
  | inl v => sendAuthError (Invalid v)
  | inr (email, password) =>
      catch (loginUser request email password sid sessionUuid)
            (fun e => sendAuthError (Raised e))
  end.

(** [POST /logout] *)
Definition logoutRoute (request : Request) : M unit := logoutUser request.


End Routes.

(** A validation error carries nothing here, and the stand-in for
    [sendValidationError] answers 400. *)
Definition answer400 (err : Caught unit) : M unit :=
  replyCode 400 ;;; replySend (Some [("error", JString "Invalid request")]).

Definition uniqueViolation : Exn := DbError "23505" "duplicate key value".

End Account.

(* ================================================================== *)
(** * Registration *)
(* ================================================================== *)

Module Registration.

Import Auth.

(** Registration sends one more kind of statement than the rest of the
    service: the [INSERT] into [users]. *)
Inductive Stmt : Type :=
| OnSessions (s : Statement)
| InsertUser (id email passwordHash : string).

Record RWorld : Type := mkRWorld {
  rdb : Db;
  rnow : Z;
  rfaults : list (option Exn);
  rissued : list Stmt
}.

Record RState : Type := mkRState {
  rworld : RWorld;
  rauth : AuthSlot;
  rreply : Reply
}.

Definition R (A : Type) : Type := Eff RState A.

(** A function of the service run from here: on the same tables, clock and
    fault schedule, its statements added to the log. *)
Definition run {A} (m : M A) : R A :=
  fun st =>
    let w := rworld st in
    let '(c, st') := m (mkState (mkWorld (rdb w) (rnow w) (rfaults w) [])
                                (rauth st) (rreply st)) in
    (c, mkRState (mkRWorld (db (world st')) (now (world st')) (faults (world st'))
                           (rissued w ++ map OnSessions (issued (world st'))))
                 (auth st') (reply st')).

Definition withUser (d : Db) (user : DbUser) : Db :=
  mkDb (users d ++ [user]) (sessions d) (profiles d).

Definition createUser (id email passwordHash : string) : R unit :=
  fun st =>
    let w := rworld st in
    let attempted d :=
      mkRWorld d (rnow w) (tl (rfaults w))
               (rissued w ++ [InsertUser id email passwordHash]) in
    match hd None (rfaults w) with
    | Some e => (Throw e, mkRState (attempted (rdb w)) (rauth st) (rreply st))
    | None =>
        (Normal tt,
         mkRState (attempted (withUser (rdb w) (mkUser id email passwordHash)))
                  (rauth st) (rreply st))
    end.

Section Register.

Context {crypto : Crypto} {dates : DateFormat}.

(** [passwordHash], [userId], [sid] and [sessionUuid] are the values
    [hashPassword(password)], the first [generateUuid()], [generateToken()]
    and the second [generateUuid()] return in this call. *)
Definition registerUser (request : Request) (email password : string)
    (passwordHash userId sid sessionUuid : string) : R unit :=
  existing <- run (findUserByEmail email) ;;
  match existing with
  | Some _ => run (replyCode 409 ;;; replySend (Some Account.emailTaken))
  | None =>
      createUser userId email passwordHash ;;;
      run (deleteSessionsByUserId userId) ;;;
      let tokenHash := sha256 sid in
      expiresAt <- run (buildSessionExpiry (SESSION_DAYS (env request))) ;;
      run (createSession sessionUuid userId tokenHash expiresAt) ;;;
      run (setSessionCookie sid (isProduction request) expiresAt) ;;;
      run (replyCode 201) ;;;
      run (replySend (Some [("userId", JString userId);
                            ("email", JString email);
                            ("profileId", JNull)]))
  end.

Variable V : Type.
Variable sendValidationError : Account.Caught V -> M unit.

(** [POST /register] *)
Definition registerRoute (request : Request) (body : V + string * string)
    (passwordHash userId sid sessionUuid : string) : R unit :=
  match body with
  | inl v => run (Account.sendAuthError V sendValidationError (Account.Invalid v))
  | inr (email, password) =>
      Account.catch
        (registerUser request email password passwordHash userId sid sessionUuid)
        (fun e => run (Account.sendAuthError V sendValidationError (Account.Raised e)))
  end.

End Register.

Definition rstart (plugin : bool) (d : Db) (t : Z) (fs : list (option Exn)) : RState :=
  mkRState (mkRWorld d t fs []) Unset (freshReply plugin).

End Registration.

(* ================================================================== *)
(** * Database plugin *)
(* ================================================================== *)

Module Plugin.

(** The [ssl] decision of [dbPlugin]. *)
Definition useSsl (DB_SSL_MODE DATABASE_URL : string) : bool :=
  String.eqb DB_SSL_MODE "require"
  || (String.eqb DB_SSL_MODE "auto" && negb (includes DATABASE_URL "localhost")).

End Plugin.

(* ================================================================== *)
(** * Database probe and sample data *)
(* ================================================================== *)

Module Probe.

Import Classifier.

(** The error [probeDatabase] rejects with when its timer fires first;
    [timeoutMs] is the decimal text of the number of milliseconds. *)
Definition timeoutError (timeoutMs : string) : ErrorLike :=
  mkErrorLike (VStr "ETIMEDOUT")
              (VStr ("Database probe timed out after " ++ timeoutMs ++ "ms"))
              VUndefined.

End Probe.

Module Samples.

Import Auth.

Definition bob : DbUser := mkUser "u-2" "bob@example.com" "argon2:s3cret".

Definition bobSession : SessionRow := mkSession "s-2" "u-2" "sha256:tok-b" 9000 None.

(** Alice and Bob, each with a stored session; Alice's expires at 5000. *)
Definition twoUsers : Db :=
  mkDb [alice; bob] [aliceSession; bobSession] [mkProfile "p-1" "u-1"].

Definition aliceCookie : Request := plainRequest (HSingle "theme=dark; sid=tok-1").

Definition alicePrincipal : SessionPrincipal :=
  mkPrincipal "tok-1" "s-1" "u-1" "Alice@Example.com" (Some "p-1") 5000.

(** A token with a space, separators, a percent sign and a two-byte
    character. *)
Definition oddToken : string :=
  ("a b;c=d%" ++ String (byte 195) (String (byte 169) ""))%string.

End Samples.

Example split_example : split ";" "a=1; sid=x=y;" = ["a=1"; " sid=x=y"; ""].
Proof. reflexivity. Qed.

Example trim_example : trim (String (byte 9) " sid= " ++ String (byte 194) (String (byte 160) ""))%string = "sid=".
Proof. reflexivity. Qed.

Example decode_example1 : decodeURIComponent "a%20b%E2%82%ACc" =
  Normal ("a b" ++ String (byte 226) (String (byte 130) (String (byte 172) "c")))%string.
Proof. reflexivity. Qed.

Example decode_example2 : decodeURIComponent "%" = Throw URIError.
Proof. reflexivity. Qed.

Example decode_example3 : decodeURIComponent "%C0%80" = Throw URIError.
Proof. reflexivity. Qed.

Example encode_example : encodeURIComponent "a b/c" = "a%20b%2Fc".
Proof. reflexivity. Qed.

Example endsWith_example : endsWith "001_a.sql" ".sql" = true /\ endsWith "sql" ".sql" = false.
Proof. split; reflexivity. Qed.

Example classify_refused :
  Classifier.isServiceUnavailableError
    [Classifier.mkErrorLike (Classifier.VStr "ECONNREFUSED") Classifier.VUndefined Classifier.VUndefined]
    (Classifier.VObj 0) = Some true.
Proof. reflexivity. Qed.

Example classify_cycle :
  Classifier.isServiceUnavailableError Classifier.cycle (Classifier.VObj 0) = Some false.
Proof. reflexivity. Qed.

Example cookie_examples :
  Auth.parseCookieHeader (Some "theme=dark; sid=abc%20d") "sid" = Normal (Some "abc d")
  /\ Auth.parseCookieHeader (Some "a=b;sid=x=y") "sid" = Normal (Some "x=y")
  /\ Auth.parseCookieHeader (Some "sid") "sid" = Normal None
  /\ Auth.parseCookieHeader (Some " sid = x") "sid" = Normal None
  /\ Auth.parseCookieHeader (Some "sid=; sid=later") "sid" = Normal None
  /\ Auth.parseCookieHeader (Some "sid=%E0%80") "sid" = Normal (Some "%E0%80")
  /\ Auth.parseCookieHeader None "sid" = Normal None.
Proof. repeat split. Qed.

Example login_example :
  let st := snd (@Auth.loginUser Auth.toyCrypto Auth.toyDates
                   (Auth.plainRequest Auth.HAbsent) "ALICE@example.com" "hunter2"
                   "tok-9" "s-9" (Auth.start false (Auth.healthy Auth.loggedIn 1000))) in
  Auth.sessions (Auth.db (Auth.world st))
  = [Auth.mkSession "s-9" "u-1" "sha256:tok-9" 604801000 None]
  /\ Auth.statusCode (Auth.reply st) = 200%nat
  /\ Auth.payload (Auth.reply st)
     = Some [("userId", Auth.JString "u-1");
             ("email", Auth.JString "Alice@Example.com");
             ("profileId", Auth.JString "p-1")]
  /\ Auth.headers (Auth.reply st)
     = [("set-cookie",
         "sid=tok-9; Path=/; HttpOnly; SameSite=Lax; Expires=Fri, 01 Jan 2027 00:00:00 GMT")].
Proof. repeat split. Qed.

Example migrate_twice :
  let '(_, w1) := Migrations.runMigrations Migrations.twoFiles Migrations.fresh in
  let '(c2, w2) := Migrations.runMigrations Migrations.twoFiles w1 in
  c2 = Normal tt
  /\ Migrations.ledger w2 = Some ["001_a.sql"; "002_b.sql"]
  /\ map fst (Migrations.applied w2) = ["001_a.sql"; "002_b.sql"].
Proof. vm_compute. repeat split. Qed.

(* ================================================================== *)
(** * Sequencing *)
(* ================================================================== *)

Section EffFacts.

Context {S A B : Type}.

Lemma bind_normal (m : Eff S A) (k : A -> Eff S B) (st st' : S) (a : A) :
  m st = (Normal a, st') -> bind m k st = k a st'.
Proof. intros H. unfold bind. now rewrite H. Qed.

Lemma bind_throw (m : Eff S A) (k : A -> Eff S B) (st st' : S) (e : Exn) :
  m st = (Throw e, st') -> bind m k st = (Throw e, st').
Proof. intros H. unfold bind. now rewrite H. Qed.

(** A sequence that returns went through both of its parts. *)
Lemma bind_inv (m : Eff S A) (k : A -> Eff S B) (st st' : S) (b : B) :
  bind m k st = (Normal b, st') ->
  exists a mid, m st = (Normal a, mid) /\ k a mid = (Normal b, st').
Proof.
  unfold bind. destruct (m st) as [[a|e] mid]; [eauto | discriminate].
Qed.

End EffFacts.

(* ================================================================== *)
(** * Facts about strings *)
(* ================================================================== *)

Section StringFacts.

Lemma prefix_append (p s : string) :
  String.prefix p s = true <-> exists rest, s = (p ++ rest)%string.
Proof.
  revert s; induction p as [|c p IH]; intros s.
  - split; [intros _; exists s; reflexivity | intros _; destruct s; reflexivity].
  - destruct s as [|d s]; simpl.
    + split; [discriminate | intros [rest H]; discriminate].
    + destruct (Ascii.ascii_dec c d) as [->|Hne].
      * rewrite IH. split; intros [rest H]; exists rest.
        -- now rewrite H.
        -- now injection H.
      * split; [discriminate | intros [rest H]; injection H; congruence].
Qed.

Lemma includes_substring (s hint : string) :
  includes s hint = true <-> Classifier.Substring hint s.
Proof.
  unfold Classifier.Substring.
  induction s as [|c s IH]; cbn [includes].
  - rewrite orb_false_r. rewrite prefix_append. split.
    + intros [rest H]. exists EmptyString, rest. exact H.
    + intros [[|b before] [after H]]; [exists after; exact H | discriminate].
  - rewrite orb_true_iff. rewrite prefix_append. rewrite IH. split.
    + intros [[rest H] | [before [after H]]].
      * exists EmptyString, rest. exact H.
      * exists (String c before), after. simpl. now rewrite H.
    + intros [[|b before] [after H]].
      * left. exists after. exact H.
      * right. exists before, after. simpl in H. now injection H.
Qed.

Lemma existsb_eqb_In (s : string) (l : list string) :
  existsb (String.eqb s) l = true <-> In s l.
Proof.
  rewrite existsb_exists. split.
  - intros [x [Hin Heq]]. apply String.eqb_eq in Heq. now subst.
  - intros Hin. exists s. split; [exact Hin | apply String.eqb_refl].
Qed.

End StringFacts.

(* ================================================================== *)
(** * The failure classifier *)
(* ================================================================== *)

Section ClassifierFacts.

Import Classifier.

Lemma sameValueZero_eq (x y : value) : sameValueZero x y = true <-> x = y.
Proof.
  destruct x, y; simpl; split; intros H;
    try reflexivity; try discriminate; try congruence.
  - apply Bool.eqb_prop in H. now subst.
  - injection H as ->. apply Bool.eqb_reflx.
  - apply Z.eqb_eq in H. now subst.
  - injection H as ->. apply Z.eqb_refl.
  - apply String.eqb_eq in H. now subst.
  - injection H as ->. apply String.eqb_refl.
  - apply Nat.eqb_eq in H. now subst.
  - injection H as ->. apply Nat.eqb_refl.
Qed.

Lemma has_In (seen : list value) (v : value) : has seen v = true <-> In v seen.
Proof.
  unfold has. rewrite existsb_exists. split.
  - intros [x [Hin Heq]]. apply sameValueZero_eq in Heq. now subst.
  - intros Hin. exists v. split; [exact Hin | now apply sameValueZero_eq].
Qed.

Lemma has_false_not_In (seen : list value) (v : value) :
  has seen v = false <-> ~ In v seen.
Proof.
  rewrite <- has_In. destruct (has seen v); split; congruence.
Qed.

Lemma known_code_truthy (s : string) :
  In s SERVICE_UNAVAILABLE_DB_CODES -> truthyStr s = true.
Proof.
  unfold SERVICE_UNAVAILABLE_DB_CODES. simpl.
  intros H. repeat (destruct H as [H|H]; [subst s; reflexivity|]). contradiction.
Qed.

Lemma hint_needs_text (hint : string) :
  In hint MESSAGE_HINTS -> includes EmptyString hint = false.
Proof.
  unfold MESSAGE_HINTS. simpl.
  intros H. repeat (destruct H as [H|H]; [subst hint; reflexivity|]). contradiction.
Qed.

Lemma examine_tests (c : ErrorLike) :
  examine c =
    match code c with
    | VStr s => truthyStr s && setHas SERVICE_UNAVAILABLE_DB_CODES s
    | _ => false
    end
    || match message c with
       | VStr s => truthyStr (toLowerCase s)
                   && existsb (fun hint => includes (toLowerCase s) hint) MESSAGE_HINTS
       | _ => false
       end.
Proof.
  unfold examine.
  destruct (code c) as [ | | | |cd| ], (message c) as [ | | | |msg| ];
    try reflexivity;
    try (destruct (truthyStr cd && setHas SERVICE_UNAVAILABLE_DB_CODES cd);
         reflexivity);
    try (destruct (truthyStr (toLowerCase msg)
                   && existsb (fun hint => includes (toLowerCase msg) hint)
                              MESSAGE_HINTS); reflexivity).
Qed.

Lemma code_test_spec (c : ErrorLike) :
  match code c with
  | VStr s => truthyStr s && setHas SERVICE_UNAVAILABLE_DB_CODES s
  | _ => false
  end = true <-> KnownCode c.
Proof.
  unfold KnownCode.
  destruct (code c) as [ | | | |cd| ];
    try (split; [discriminate | intros [s [H _]]; discriminate]).
  split.
  - intros H. apply andb_true_iff in H as [_ H].
    exists cd. split; [reflexivity | now apply existsb_eqb_In].
  - intros [s [Heq Hin]]. injection Heq as <-.
    apply andb_true_iff. split.
    + now apply known_code_truthy.
    + now apply existsb_eqb_In.
Qed.

Lemma message_test_spec (c : ErrorLike) :
  match message c with
  | VStr s => truthyStr (toLowerCase s)
              && existsb (fun hint => includes (toLowerCase s) hint) MESSAGE_HINTS
  | _ => false
  end = true <-> FoldedMessageHint c.
Proof.
  unfold FoldedMessageHint.
  destruct (message c) as [ | | | |msg| ];
    try (split; [discriminate | intros [s [hint [H _]]]; discriminate]).
  split.
  - intros H. apply andb_true_iff in H as [_ H].
    apply existsb_exists in H as [hint [Hin Hinc]].
    exists msg, hint. repeat split; [exact Hin | now apply includes_substring].
  - intros [s [hint [Heq [Hin Hsub]]]]. injection Heq as <-.
    apply includes_substring in Hsub.
    apply andb_true_iff. split.
    + destruct (toLowerCase msg); [|reflexivity].
      rewrite (hint_needs_text hint Hin) in Hsub. discriminate.
    + apply existsb_exists. eauto.
Qed.

(** The two tests of the loop body, read as a property of the object. *)
Lemma examine_spec (c : ErrorLike) :
  examine c = true <-> KnownCode c \/ FoldedMessageHint c.
Proof.
  rewrite examine_tests, orb_true_iff, code_test_spec, message_test_spec.
  reflexivity.
Qed.

(** ** Termination of the walk *)

Lemma filter_length_le {A} (f g : A -> bool) (l : list A) :
  (forall x, f x = true -> g x = true) ->
  (List.length (filter f l) <= List.length (filter g l))%nat.
Proof.
  intros Himp. induction l as [|x l IH]; simpl; [lia|].
  destruct (f x) eqn:Ef.
  - rewrite (Himp x Ef). simpl. lia.
  - destruct (g x); simpl; lia.
Qed.

Lemma filter_length_lt {A} (f g : A -> bool) (l : list A) (a : A) :
  (forall x, f x = true -> g x = true) ->
  In a l -> f a = false -> g a = true ->
  (List.length (filter f l) < List.length (filter g l))%nat.
Proof.
  intros Himp Hin Hfa Hga. induction l as [|x l IH]; simpl; [contradiction|].
  destruct Hin as [->|Hin].
  - rewrite Hfa, Hga. simpl.
    pose proof (filter_length_le f g l Himp). lia.
  - specialize (IH Hin). destruct (f x) eqn:Ef.
    + rewrite (Himp x Ef). simpl. lia.
    + destruct (g x); simpl; lia.
Qed.

Lemma has_cons (seen : list value) (v x : value) :
  has (v :: seen) x = sameValueZero x v || has seen x.
Proof. reflexivity. Qed.

Lemma unseen_visit (h : Heap) (seen : list value) (a : nat) :
  (a < List.length h)%nat -> has seen (VObj a) = false ->
  (unseen h (VObj a :: seen) < unseen h seen)%nat.
Proof.
  intros Hlt Hnew. unfold unseen.
  apply filter_length_lt with (a := a).
  - intros x. rewrite has_cons, negb_orb, andb_true_iff. tauto.
  - apply in_seq. lia.
  - rewrite has_cons. simpl. now rewrite Nat.eqb_refl.
  - now rewrite Hnew.
Qed.

Lemma props_cases (h : Heap) (v : value) :
  props h v = noProps \/ exists a, v = VObj a /\ (a < List.length h)%nat.
Proof.
  destruct v as [ | | | | |a]; try (left; reflexivity).
  destruct (Nat.lt_ge_cases a (List.length h)) as [Hlt|Hge].
  - right. eauto.
  - left. simpl. now apply nth_overflow.
Qed.

Lemma walk_terminates (fuel : nat) (h : Heap) :
  forall (current : value) (seen : list value),
    NoDup seen ->
    (unseen h seen + 2 <= fuel)%nat ->
    exists b seen',
      walk fuel h current seen = Some (b, seen')
      /\ NoDup seen'
      /\ (List.length seen' <= List.length seen + unseen h seen + 1)%nat.
Proof.
  induction fuel as [|fuel IH]; intros current seen Hnd Hfuel; [lia|].
  cbn [walk].
  destruct (truthy current && negb (has seen current)) eqn:Hguard.
  2:{ exists false, seen. repeat split; [exact Hnd | lia]. }
  apply andb_true_iff in Hguard as [_ Hnew].
  apply negb_true_iff in Hnew.
  assert (Hnd' : NoDup (current :: seen)).
  { constructor; [now apply has_false_not_In | exact Hnd]. }
  destruct (examine (props h current)) eqn:Hex.
  { exists true, (current :: seen). repeat split; [exact Hnd' | simpl; lia]. }
  destruct (props_cases h current) as [Hnone | [a [-> Hlt]]].
  - rewrite Hnone. simpl cause.
    destruct fuel as [|fuel]; [lia|]. cbn [walk truthy andb].
    exists false, (current :: seen). repeat split; [exact Hnd' | simpl; lia].
  - pose proof (unseen_visit h seen a Hlt Hnew) as Hdec.
    destruct (IH (cause (props h (VObj a))) (VObj a :: seen) Hnd') as
      [b [seen' [Hw [Hnd'' Hlen]]]]; [lia|].
    exists b, seen'. repeat split; [exact Hw | exact Hnd'' | simpl in Hlen; lia].
Qed.

Lemma unseen_empty (h : Heap) : unseen h [] = List.length h.
Proof.
  unfold unseen. rewrite forallb_filter_id; [apply length_seq|].
  apply forallb_forall. reflexivity.
Qed.

Lemma walk_more_fuel (fuel : nat) (h : Heap) :
  forall current seen r,
    walk fuel h current seen = Some r ->
    forall fuel', (fuel <= fuel')%nat -> walk fuel' h current seen = Some r.
Proof.
  induction fuel as [|fuel IH]; intros current seen r Hw fuel' Hle;
    [discriminate|].
  destruct fuel' as [|fuel']; [lia|].
  cbn [walk] in *.
  destruct (truthy current && negb (has seen current)); [|exact Hw].
  destruct (examine (props h current)); [exact Hw|].
  apply (IH _ _ _ Hw). lia.
Qed.

(** ** What the walk answers *)

Lemma reach_falsy (h : Heap) (v x : value) :
  Reach h v x -> props h v = noProps -> x = v \/ x = VUndefined.
Proof.
  induction 1 as [v | v x Hr IH]; intros Hp.
  - now left.
  - rewrite Hp in IH. simpl in IH. right.
    destruct (IH eq_refl) as [->| ->]; reflexivity.
Qed.

Lemma falsy_no_props (h : Heap) (v : value) : truthy v = false -> props h v = noProps.
Proof. destruct v; simpl; try reflexivity; discriminate. Qed.

Lemma reach_closed (h : Heap) (seen : list value) (v x : value) :
  Reach h v x ->
  (forall s, In s seen -> In (cause (props h s)) seen) ->
  In v seen -> In x seen.
Proof.
  induction 1 as [v | v x Hr IH]; intros Hclosed Hin; [exact Hin|].
  apply IH; [exact Hclosed | now apply Hclosed].
Qed.

Lemma walk_answer (fuel : nat) (h : Heap) :
  forall current seen b seen',
    walk fuel h current seen = Some (b, seen') ->
    (forall s, In s seen -> examine (props h s) = false) ->
    (forall s, In s seen ->
       In (cause (props h s)) seen \/ cause (props h s) = current) ->
    (b = true <-> exists x, Reach h current x /\ examine (props h x) = true).
Proof.
  induction fuel as [|fuel IH]; intros current seen b seen' Hw Hno Hlink;
    [discriminate|].
  cbn [walk] in Hw.
  destruct (truthy current && negb (has seen current)) eqn:Hguard.
  - destruct (examine (props h current)) eqn:Hex.
    + injection Hw as <- <-. split; [intros _|reflexivity].
      exists current. split; [constructor | exact Hex].
    + apply IH in Hw.
      * rewrite Hw. split; intros [x [Hr Hx]]; exists x; split; try exact Hx.
        -- now apply reach_cause.
        -- inversion Hr; subst; [congruence | assumption].
      * intros s [<-|Hin]; [exact Hex | now apply Hno].
      * intros s [<-|Hin]; [now right|].
        left. destruct (Hlink s Hin) as [H|H]; [now right | left; now rewrite H].
  - injection Hw as <- <-. split; [discriminate|].
    intros [x [Hr Hx]]. exfalso.
    apply andb_false_iff in Hguard as [Hfalsy|Hseen].
    + pose proof (falsy_no_props h _ Hfalsy) as Hp.
      destruct (reach_falsy h _ _ Hr Hp) as [->| ->].
      * rewrite Hp in Hx. discriminate.
      * discriminate.
    + apply negb_false_iff, has_In in Hseen.
      assert (Hin : In x seen).
      { apply (reach_closed h seen current x Hr); [|exact Hseen].
        intros s Hs. destruct (Hlink s Hs) as [H|H]; [exact H | now rewrite H]. }
      rewrite (Hno x Hin) in Hx. discriminate.
Qed.

Lemma walk_total (h : Heap) (error : value) :
  exists b seen,
    (forall fuel, (enough h <= fuel)%nat -> walk fuel h error [] = Some (b, seen))
    /\ NoDup seen
    /\ (List.length seen <= S (List.length h))%nat.
Proof.
  destruct (walk_terminates (enough h) h error []) as [b [seen [Hw [Hnd Hlen]]]].
  - constructor.
  - rewrite unseen_empty. unfold enough. lia.
  - exists b, seen. repeat split.
    + intros fuel Hle. now apply (walk_more_fuel (enough h)).
    + exact Hnd.
    + rewrite unseen_empty in Hlen. simpl in Hlen. lia.
Qed.

(** C9.  [isServiceUnavailableError] terminates on every input, cyclic
    chains of [cause] links included: with fuel for one iteration per heap
    object and two more, the loop returns, and more fuel does not change
    what it returns.  The values it examined, which are the members of the
    visited set when it stops, are pairwise distinct, so no value is
    examined twice, and there are at most one more of them than there are
    objects. *)
Theorem classifier_terminates (h : Heap) (error : value) :
  exists b seen,
    (forall fuel, (enough h <= fuel)%nat -> walk fuel h error [] = Some (b, seen))
    /\ isServiceUnavailableError h error = Some b
    /\ NoDup seen
    /\ (List.length seen <= S (List.length h))%nat.
Proof.
  destruct (walk_total h error) as [b [seen [Hw [Hnd Hlen]]]].
  exists b, seen. repeat split; try assumption.
  unfold isServiceUnavailableError. now rewrite (Hw (enough h) (le_n _)).
Qed.

(** C3, as the code has it.  [isServiceUnavailableError] always answers,
    and it answers [true] exactly when some value on the chain of [cause]
    links from its argument has a string [code] in
    [SERVICE_UNAVAILABLE_DB_CODES] or a string [message] whose lower-cased
    form contains one of [MESSAGE_HINTS]; otherwise it answers [false]. *)
Theorem classifier_answer (h : Heap) (error : value) :
  exists b,
    isServiceUnavailableError h error = Some b
    /\ (b = true <->
        exists x, Reach h error x
                  /\ (KnownCode (props h x) \/ FoldedMessageHint (props h x))).
Proof.
  destruct (walk_total h error) as [b [seen [Hw _]]].
  specialize (Hw (enough h) (le_n _)).
  exists b. split.
  - unfold isServiceUnavailableError. now rewrite Hw.
  - rewrite (walk_answer _ _ _ _ _ _ Hw).
    + split; intros [x [Hr Hx]]; exists x; (split; [exact Hr|]);
        now apply examine_spec.
    + intros s [].
    + intros s [].
Qed.

(** C3 as stated fails on a message in upper case: the classifier answers
    [true] for an error whose only property is the message [TIMEOUT],
    although no value on its chain has a known code or a message that
    contains one of the hints. *)
Lemma classifier_upper_case_message :
  isServiceUnavailableError shouting (VObj 0) = Some true
  /\ ~ (exists x, Reach shouting (VObj 0) x
                  /\ (KnownCode (props shouting x) \/ MessageHint (props shouting x))).
Proof.
  split; [reflexivity|].
  intros [x [Hr Hx]].
  assert (Hcases : x = VObj 0 \/ x = VUndefined).
  { inversion Hr; subst; [now left|].
    right. match goal with H : Reach _ _ x |- _ =>
      destruct (reach_falsy _ _ _ H eq_refl) as [->| ->]; reflexivity end. }
  destruct Hcases as [->| ->]; destruct Hx as [[s [Hc _]] | [s [hint [Hm [Hin Hsub]]]]];
    try discriminate.
  injection Hm as <-. apply includes_substring in Hsub.
  unfold MESSAGE_HINTS in Hin. simpl in Hin.
  repeat (destruct Hin as [Hin|Hin]; [subst hint; discriminate|]). contradiction.
Qed.

End ClassifierFacts.

(* ================================================================== *)
(** * Cookie token extraction *)
(* ================================================================== *)

Section CookieFacts.

Import Auth.

Lemma split_nonempty (sep : ascii) (s : string) : split sep s <> [].
Proof.
  destruct s as [|c s]; simpl; [discriminate|].
  destruct (Ascii.eqb c sep); [discriminate|].
  destruct (split sep s); discriminate.
Qed.

Lemma try_decode (value : string) :
  try_catch (cbind (decodeURIComponent value) (fun d => Normal (Some d)))
            (fun _ => Normal (Some value))
  = Normal (Some (decodedOrRaw value)).
Proof. unfold decodedOrRaw. now destruct (decodeURIComponent value). Qed.

Lemma parseEntries_find (entries : list string) (key : string) :
  parseEntries entries key =
  Normal match option_map entryValue
                 (find (fun entry => String.eqb (entryName entry) key) entries) with
         | Some value => if truthyStr value then Some (decodedOrRaw value) else None
         | None => None
         end.
Proof.
  induction entries as [|entry rest IH]; [reflexivity|].
  cbn [parseEntries find]. unfold entryName at 1.
  destruct (split "="%char (trim entry)) as [|rawKey valueParts] eqn:E.
  - now apply split_nonempty in E.
  - cbn [hd]. destruct (String.eqb rawKey key); cbn [negb].
    + cbn [option_map]. unfold entryValue. rewrite E. cbn [tl].
      destruct (truthyStr (join "=" valueParts)); cbn [negb];
        [apply try_decode | reflexivity].
    + exact IH.
Qed.

Lemma parseCookieHeader_spec (header : option string) (key : string) :
  parseCookieHeader header key =
  Normal match header with
         | Some h => cookieValue h key
         | None => None
         end.
Proof.
  destruct header as [h|]; [|reflexivity].
  unfold parseCookieHeader, cookieValue, rawCookie.
  destruct h as [|c h]; cbn [truthyStr negb].
  - cbn [split find]. unfold entryName, entryValue.
    destruct (String.eqb (hd EmptyString (split "="%char (trim EmptyString))) key);
      reflexivity.
  - apply parseEntries_find.
Qed.

Lemma getSidFromRequest_spec (request : Request) :
  getSidFromRequest request = Normal (sidOf request).
Proof.
  unfold getSidFromRequest, sidOf, decoratedSid, rawHeader.
  destruct (cookies request) as [[v|]|]; try apply parseCookieHeader_spec.
  destruct (truthyStr v); [reflexivity | apply parseCookieHeader_spec].
Qed.

(** C7, as the code has it.  Cookie token extraction never throws.  From a
    header it returns [null] when the header is absent or has no entry named
    by the key, or when the first such entry has an empty value; otherwise
    it returns the value of that entry percent-decoded, or that value
    unchanged when it is not valid percent-encoding.  On a request, the
    non-empty [sid] of the cookie middleware comes first, then the header
    when it is a single string. *)
Theorem cookie_extraction_total :
  (forall header key,
      parseCookieHeader header key =
      Normal match header with
             | Some h =>
                 match rawCookie h key with
                 | Some value =>
                     if truthyStr value
                     then match decodeURIComponent value with
                          | Normal decoded => Some decoded
                          | Throw _ => Some value
                          end
                     else None
                 | None => None
                 end
             | None => None
             end)
  /\ (forall request,
         getSidFromRequest request =
         Normal match decoratedSid request with
                | Some v => Some v
                | None => match rawHeader request with
                          | Some h => cookieValue h "sid"
                          | None => None
                          end
                end).
Proof.
  split.
  - intros header key. rewrite parseCookieHeader_spec.
    destruct header as [h|]; [|reflexivity].
    unfold cookieValue, decodedOrRaw.
    destruct (rawCookie h key) as [value|]; [|reflexivity].
    destruct (truthyStr value); [|reflexivity].
    now destruct (decodeURIComponent value).
  - exact getSidFromRequest_spec.
Qed.

(** C7 as stated fails on a malformed cookie: the value [%] of the [sid]
    cookie is not valid percent-encoding, and extraction returns it as it
    is instead of [null]. *)
Lemma malformed_cookie_is_returned :
  rawCookie "sid=%" "sid" = Some "%"
  /\ decodeURIComponent "%" = Throw URIError
  /\ parseCookieHeader (Some "sid=%") "sid" = Normal (Some "%")
  /\ getSidFromRequest (plainRequest (HSingle "sid=%")) <> Normal None.
Proof. repeat split. discriminate. Qed.

(** ** Extraction never yields the empty token *)

Lemma tokens_nonempty (s : string) (ts : list Token) :
  tokens s = Normal ts -> truthyStr s = true -> ts <> [].
Proof.
  destruct s as [|c s]; [discriminate|]. intros H _. cbn [tokens] in H.
  destruct (Ascii.eqb c "%"%char).
  - destruct s as [|h1 [|h2 s]]; try discriminate.
    destruct (hexVal h1), (hexVal h2); try discriminate.
    destruct (tokens s); [|discriminate]. injection H as <-. discriminate.
  - destruct (tokens s); [|discriminate]. injection H as <-. discriminate.
Qed.

Lemma decodeTokens_nonempty (ts : list Token) (decoded : string) :
  decodeTokens ts None = Normal decoded -> ts <> [] -> truthyStr decoded = true.
Proof.
  destruct ts as [|[c|b] rest]; [congruence| |]; intros H _; cbn [decodeTokens] in H.
  - destruct (decodeTokens rest None); [|discriminate]. now injection H as <-.
  - destruct (b <? 128)%nat.
    + destruct (decodeTokens rest None); [|discriminate]. now injection H as <-.
    + destruct (lead b) as [q|]; [|discriminate].
      destruct (decodeTokens rest (Some q)); [|discriminate]. now injection H as <-.
Qed.

Lemma decodedOrRaw_truthy (value : string) :
  truthyStr value = true -> truthyStr (decodedOrRaw value) = true.
Proof.
  intros Hv. unfold decodedOrRaw, decodeURIComponent.
  destruct (tokens value) as [ts|e] eqn:Et; [|exact Hv]. cbn [cbind].
  destruct (decodeTokens ts None) as [decoded|e] eqn:Ed; [|exact Hv].
  apply (decodeTokens_nonempty ts); [exact Ed|].
  now apply (tokens_nonempty value).
Qed.

Lemma cookieValue_truthy (header key value : string) :
  cookieValue header key = Some value -> truthyStr value = true.
Proof.
  unfold cookieValue.
  destruct (rawCookie header key) as [raw|]; [|discriminate].
  destruct (truthyStr raw) eqn:E; [|discriminate].
  intros [= <-]. now apply decodedOrRaw_truthy.
Qed.

(** Whatever the request, the token extracted is not the empty string. *)
Lemma extracted_sid_is_truthy (request : Request) (sid : string) :
  getSidFromRequest request = Normal (Some sid) -> truthyStr sid = true.
Proof.
  rewrite getSidFromRequest_spec. unfold sidOf, decoratedSid.
  intros [= H].
  assert (Hheader :
    match rawHeader request with
    | Some h => cookieValue h "sid"
    | None => None
    end = Some sid -> truthyStr sid = true).
  { destruct (rawHeader request) as [h|]; [apply cookieValue_truthy | discriminate]. }
  destruct (cookies request) as [[v|]|]; try (now apply Hheader).
  destruct (truthyStr v) eqn:Ev; [now injection H as <- | now apply Hheader].
Qed.

End CookieFacts.

(* ================================================================== *)
(** * The session service *)
(* ================================================================== *)

Section ServiceFacts.

Import Auth.
Local Open Scope js_scope.

Context {crypto : Crypto} {dates : DateFormat}.

Lemma query_runs {A} (stmt : Statement) (run : Db -> Z -> A * Db) (st : State) :
  hd None (faults (world st)) = None ->
  query stmt run st =
  (Normal (fst (run (db (world st)) (now (world st)))),
   mkState (sent_to (world st) (snd (run (db (world st)) (now (world st)))) stmt)
           (auth st) (reply st)).
Proof.
  intros H. unfold query. rewrite H.
  now destruct (run (db (world st)) (now (world st))).
Qed.

Lemma query_fails {A} (stmt : Statement) (run : Db -> Z -> A * Db) (st : State)
    (e : Exn) :
  hd None (faults (world st)) = Some e ->
  query stmt run st =
  (Throw e, mkState (sent_to (world st) (db (world st)) stmt) (auth st) (reply st)).
Proof. intros H. unfold query. now rewrite H. Qed.

(** ** Attaching a principal *)

(** C10.  When the first [sid] entry of the Cookie header has an empty
    value, as [sid=] has, and the cookie middleware supplied no [sid], token
    extraction returns [null], not the empty string; [attachAuth] then sets
    [request.auth] to [null] and sends no statement at all: the database,
    the fault schedule and the list of statements issued are unchanged. *)
Theorem empty_sid_is_anonymous (request : Request) (header : string) (st : State) :
  decoratedSid request = None ->
  rawHeader request = Some header ->
  rawCookie header "sid" = Some EmptyString ->
  getSidFromRequest request = Normal None
  /\ attachAuth request st = (Normal tt, mkState (world st) Anonymous (reply st)).
Proof.
  intros Hdec Hhead Hraw.
  assert (Hsid : getSidFromRequest request = Normal None).
  { rewrite getSidFromRequest_spec. unfold sidOf. rewrite Hdec, Hhead.
    unfold cookieValue. now rewrite Hraw. }
  split; [exact Hsid|].
  unfold attachAuth, bind, lift. now rewrite Hsid.
Qed.

(** C6, as the code has it.  [attachAuth] awaits [touchSession] without
    catching: when the session lookup succeeds and the touch is rejected
    with an error, [attachAuth] throws that error and [request.auth] keeps
    the value it had, so no principal is bound.  When the touch succeeds
    the principal is bound and the last-activity time of the session is the
    current time. *)
Theorem touch_outcome_decides_attach (request : Request) (st : State)
    (sid : string) (row : DbSessionLookup) (touch : option Exn)
    (rest : list (option Exn)) :
  getSidFromRequest request = Normal (Some sid) ->
  faults (world st) = None :: touch :: rest ->
  sessionByTokenHash (db (world st)) (now (world st)) (sha256 sid) = Some row ->
  let w := world st in
  let log := issued w ++ [SelectSessionByTokenHash (sha256 sid);
                          UpdateSessionLastSeen (session_id row)] in
  attachAuth request st =
  match touch with
  | Some e => (Throw e, mkState (mkWorld (db w) (now w) rest log) (auth st) (reply st))
  | None =>
      (Normal tt,
       mkState (mkWorld (touched (db w) (now w) (session_id row)) (now w) rest log)
               (Bound (mkPrincipal sid (session_id row) (user_id row) (l_email row)
                                   (profile_id row) (expires_at row)))
               (reply st))
  end.
Proof.
  intros Hsid Hfaults Hrow w log. subst w log.
  pose proof (extracted_sid_is_truthy _ _ Hsid) as Htruthy.
  unfold attachAuth.
  rewrite (bind_normal _ _ st st (Some sid)) by (unfold lift; now rewrite Hsid).
  rewrite Htruthy. cbn [negb].
  unfold findSessionByTokenHash.
  erewrite bind_normal; [|apply query_runs; now rewrite Hfaults].
  cbn [fst snd]. rewrite Hrow.
  unfold touchSession, sent_to. rewrite Hfaults. cbn [tl].
  destruct touch as [e|].
  - erewrite bind_throw; [|apply query_fails; reflexivity].
    unfold sent_to. cbn. now rewrite <- app_assoc.
  - erewrite bind_normal; [|apply query_runs; reflexivity].
    unfold sent_to, setAuth. cbn. now rewrite <- app_assoc.
Qed.

(** ** Logging out *)

Lemma clearSessionCookie_fresh (isProd plugin : bool) (w : World) (a : AuthSlot) :
  exists r,
    clearSessionCookie isProd (mkState w a (freshReply plugin)) = (Normal tt, mkState w a r)
    /\ statusCode r = 200%nat /\ payload r = None /\ sent r = false
    /\ cookiePlugin r = plugin
    /\ clearsSid isProd r.
Proof.
  unfold clearSessionCookie, bind, getReply, clearsSid. cbn.
  destruct plugin; cbn.
  - eexists. repeat split.
  - eexists. repeat split. cbn.
    exists ("Path=/; HttpOnly; SameSite=Lax" ++ (if isProd then "; Secure" else ""))%string.
    split; [|reflexivity]. destruct isProd; reflexivity.
Qed.

Lemma filter_none {A} (f : A -> bool) (l : list A) :
  (forall x, In x l -> f x = false) -> filter f l = [].
Proof.
  intros H. induction l as [|x l IH]; [reflexivity|]. simpl.
  rewrite (H x (or_introl eq_refl)). apply IH. intros y Hy. apply H. now right.
Qed.

Lemma filter_all {A} (f : A -> bool) (l : list A) :
  (forall x, In x l -> f x = true) -> filter f l = l.
Proof.
  intros H. induction l as [|x l IH]; [reflexivity|]. simpl.
  rewrite (H x (or_introl eq_refl)). f_equal. apply IH. intros y Hy. apply H. now right.
Qed.

Lemma no_session_with_hash (d : Db) (t : Z) (tokenHash : string) :
  Unused d tokenHash -> sessionByTokenHash d t tokenHash = None.
Proof.
  intros Hun. unfold sessionByTokenHash, selectSessions.
  rewrite filter_none; [reflexivity|].
  intros s Hin. unfold liveWithHash.
  apply andb_false_iff. left. apply String.eqb_neq. now apply Hun.
Qed.

Lemma sidOf_truthy (request : Request) (sid : string) :
  sidOf request = Some sid -> truthyStr sid = true.
Proof.
  intros H. apply (extracted_sid_is_truthy request).
  now rewrite getSidFromRequest_spec, H.
Qed.

Lemma unused_after_logout (d : Db) (tokenHash : string) :
  Unused (withoutTokenHash d tokenHash) tokenHash.
Proof.
  intros s Hin. cbn in Hin. apply filter_In in Hin as [_ Hkeep].
  apply negb_true_iff in Hkeep. now apply String.eqb_neq.
Qed.

Lemma withoutTokenHash_unused (d : Db) (tokenHash : string) :
  Unused d tokenHash -> withoutTokenHash d tokenHash = d.
Proof.
  intros Hun. destruct d as [us ss ps]. unfold withoutTokenHash. cbn. f_equal.
  apply filter_all. intros s Hin. apply negb_true_iff, String.eqb_neq.
  now apply Hun.
Qed.

(** The reply of [logoutUser], and the one statement it sends. *)
Lemma logout_reply (request : Request) (plugin : bool) (w : World) :
  sidOf request = None \/ hd None (faults w) = None ->
  exists r,
    logoutUser request (start plugin w) =
    (Normal tt,
     mkState match sidOf request with
             | Some sid =>
                 if truthyStr sid
                 then sent_to w (withoutTokenHash (db w) (sha256 sid))
                              (DeleteSessionByTokenHash (sha256 sid))
                 else w
             | None => w
             end
             Unset r)
    /\ statusCode r = 204%nat
    /\ payload r = None
    /\ sent r = true
    /\ clearsSid (isProduction request) r.
Proof.
  intros Hok. unfold logoutUser.
  rewrite (bind_normal _ _ (start plugin w) (start plugin w) (sidOf request))
    by (unfold lift; now rewrite getSidFromRequest_spec).
  set (w' := match sidOf request with
             | Some sid =>
                 if truthyStr sid
                 then sent_to w (withoutTokenHash (db w) (sha256 sid))
                              (DeleteSessionByTokenHash (sha256 sid))
                 else w
             | None => w
             end).
  assert (Hdel :
    (match sidOf request with
     | Some sid => if truthyStr sid then deleteSessionByTokenHash (sha256 sid)
                   else ret tt
     | None => ret tt
     end) (start plugin w) = (Normal tt, mkState w' Unset (freshReply plugin))).
  { subst w'. destruct (sidOf request) as [sid|]; [|reflexivity].
    destruct (truthyStr sid); [|reflexivity].
    destruct Hok as [Hnone|Hfault]; [discriminate|].
    unfold deleteSessionByTokenHash. rewrite query_runs by exact Hfault.
    reflexivity. }
  rewrite (bind_normal _ _ _ _ _ Hdel).
  destruct (clearSessionCookie_fresh (isProduction request) plugin w' Unset)
    as [r [Hclear [Hstatus [Hpayload [Hsent [Hplug Hclears]]]]]].
  rewrite (bind_normal _ _ _ _ _ Hclear).
  eexists. split; [reflexivity|]. cbn.
  repeat split. unfold clearsSid in *. cbn. exact Hclears.
Qed.

(** C8.  Whatever cookie the request carries, and provided the database
    does not reject the [DELETE] when one is sent, [logoutUser] returns
    normally: the reply has status 204, is sent without a body and clears
    the [sid] cookie.  With a token, one statement is sent, the [DELETE] by
    the fingerprint of the token: afterwards the stored sessions are those
    stored before whose fingerprint is another, in the same order, so that
    none with that fingerprint remains and the fingerprint resolves to no
    session at any time; when no session had that fingerprint the database
    is as before.  Users and profiles are never touched.  Without a token
    no statement is sent and the world is as before, whatever the fault
    schedule. *)
Theorem logout_always_clears (request : Request) (plugin : bool) (w : World) :
  sidOf request = None \/ hd None (faults w) = None ->
  exists r,
    logoutUser request (start plugin w) =
    (Normal tt,
     mkState match sidOf request with
             | Some sid =>
                 if truthyStr sid
                 then sent_to w (withoutTokenHash (db w) (sha256 sid))
                              (DeleteSessionByTokenHash (sha256 sid))
                 else w
             | None => w
             end
             Unset r)
    /\ statusCode r = 204%nat
    /\ payload r = None
    /\ sent r = true
    /\ clearsSid (isProduction request) r
    /\ let after := world (snd (logoutUser request (start plugin w))) in
       users (db after) = users (db w)
       /\ profiles (db after) = profiles (db w)
       /\ match sidOf request with
          | Some sid =>
              issued after = issued w ++ [DeleteSessionByTokenHash (sha256 sid)]
              /\ sessions (db after)
                 = filter (fun s => negb (String.eqb (s_token_hash s) (sha256 sid)))
                          (sessions (db w))
              /\ (forall s,
                    In s (sessions (db after)) <->
                    In s (sessions (db w)) /\ s_token_hash s <> sha256 sid)
              /\ (forall t, sessionByTokenHash (db after) t (sha256 sid) = None)
              /\ (Unused (db w) (sha256 sid) -> db after = db w)
          | None => after = w
          end.
Proof.
  intros Hok.
  destruct (logout_reply request plugin w Hok)
    as [r [Hrun [Hstatus [Hpayload [Hsent Hclears]]]]].
  exists r.
  split; [exact Hrun|]. split; [exact Hstatus|]. split; [exact Hpayload|].
  split; [exact Hsent|]. split; [exact Hclears|].
  rewrite Hrun. cbn [snd world]. cbv zeta.
  destruct (sidOf request) as [sid|] eqn:Hsid; [|repeat split].
  rewrite (sidOf_truthy _ _ Hsid).
  cbn [sent_to db issued withoutTokenHash users profiles sessions].
  split; [reflexivity|]. split; [reflexivity|].
  split; [reflexivity|]. split; [reflexivity|].
  split.
  { intros s. rewrite filter_In, negb_true_iff, String.eqb_neq. reflexivity. }
  split; [intros t; apply no_session_with_hash, unused_after_logout|].
  apply withoutTokenHash_unused.
Qed.

(** ** Logging in *)

(** C5.  A login with an email no user has and a login with the email of a
    user but a password that does not verify end the same way: both return
    normally with the same reply, status 401 and body
    [{error: 'Invalid credentials'}], no header and no cookie; and both
    leave the tables as they were. *)
Theorem invalid_credentials_indistinguishable
    (request1 request2 : Request) (plugin : bool) (w1 w2 : World)
    (email1 password1 sid1 uuid1 email2 password2 sid2 uuid2 : string)
    (user : DbUser) :
  hd None (faults w1) = None ->
  hd None (faults w2) = None ->
  userByEmail (db w1) email1 = None ->
  userByEmail (db w2) email2 = Some user ->
  verifyPassword password2 (u_password_hash user) = false ->
  let unknown := loginUser request1 email1 password1 sid1 uuid1 (start plugin w1) in
  let wrong := loginUser request2 email2 password2 sid2 uuid2 (start plugin w2) in
  fst unknown = Normal tt
  /\ fst wrong = Normal tt
  /\ reply (snd unknown) = reply (snd wrong)
  /\ reply (snd unknown) = mkReply plugin 401 [] [] true (Some invalidCredentials)
  /\ db (world (snd unknown)) = db w1
  /\ db (world (snd wrong)) = db w2.
Proof.
  intros Hf1 Hf2 Hnone Hsome Hbad unknown wrong. subst unknown wrong.
  unfold loginUser, findUserByEmail.
  erewrite bind_normal; [|apply query_runs; exact Hf1].
  erewrite (bind_normal _ _ (start plugin w2)); [|apply query_runs; exact Hf2].
  cbn [fst snd start world]. rewrite Hnone, Hsome, Hbad. cbn.
  repeat split.
Qed.

Lemma query_returned {A} (stmt : Statement) (run : Db -> Z -> A * Db)
    (st st' : State) (a : A) :
  query stmt run st = (Normal a, st') ->
  a = fst (run (db (world st)) (now (world st)))
  /\ st' = mkState (sent_to (world st) (snd (run (db (world st)) (now (world st)))) stmt)
                   (auth st) (reply st).
Proof.
  unfold query. destruct (hd None (faults (world st))); [discriminate|].
  destruct (run (db (world st)) (now (world st))) as [a' d].
  now intros [= <- <-].
Qed.

(** What a login that answers 200 has done. *)
Lemma login_success_inv (request : Request) (email password sid uuid : string)
    (plugin : bool) (w : World) (st' : State) :
  loginUser request email password sid uuid (start plugin w) = (Normal tt, st') ->
  statusCode (reply st') = 200%nat ->
  exists user,
    let expiry := (now w + SESSION_DAYS (env request) * 86400000)%Z in
    userByEmail (db w) email = Some user
    /\ verifyPassword password (u_password_hash user) = true
    /\ db (world st') =
       withSession (withoutSessionsOf (db w) (u_id user))
                   (mkSession uuid (u_id user) (sha256 sid) expiry None)
    /\ issued (world st') =
       issued w ++ [SelectUserByEmail email;
                    DeleteSessionsByUserId (u_id user);
                    InsertSession uuid (u_id user) (sha256 sid) expiry;
                    SelectSessionByTokenHash (sha256 sid)]
    /\ now (world st') = now w.
Proof.
  unfold loginUser. intros Hrun Hstatus.
  apply bind_inv in Hrun as [found [s1 [Hfind Hrun]]].
  apply query_returned in Hfind as [-> ->]. cbn [fst snd start world db now] in Hrun.
  destruct (userByEmail (db w) email) as [user|].
  2:{ cbn in Hrun. injection Hrun as <-. discriminate. }
  destruct (verifyPassword password (u_password_hash user)) eqn:Hvalid.
  2:{ cbn in Hrun. injection Hrun as <-. discriminate. }
  exists user. cbn [negb] in Hrun.
  apply bind_inv in Hrun as [[] [s2 [Hdelete Hrun]]].
  apply query_returned in Hdelete as [_ ->].
  apply bind_inv in Hrun as [expiresAt [s3 [Hexpiry Hrun]]].
  injection Hexpiry as <- <-.
  apply bind_inv in Hrun as [[] [s4 [Hinsert Hrun]]].
  apply query_returned in Hinsert as [_ ->].
  apply bind_inv in Hrun as [profile [s5 [Hprofile Hrun]]].
  apply query_returned in Hprofile as [-> ->].
  unfold setSessionCookie, getReply, bind in Hrun.
  destruct plugin; cbn in Hrun; injection Hrun as <-; cbn;
    repeat rewrite <- app_assoc; repeat split; assumption || reflexivity.
Qed.

(** ** The tables after a login *)








End ServiceFacts.


(* ================================================================== *)
(** * The service on a small database *)
(* ================================================================== *)

Section ServiceExamples.

Import Auth.

Local Existing Instance toyCrypto.
Local Existing Instance toyDates.

(** The header [theme=dark; sid=] on a database that would reject the
    second statement. *)
Lemma empty_sid_is_anonymous_witness :
  let request := plainRequest (HSingle "theme=dark; sid=") in
  let st := start false (failingSecond loggedIn 1000) in
  decoratedSid request = None
  /\ rawHeader request = Some "theme=dark; sid="
  /\ rawCookie "theme=dark; sid=" "sid" = Some EmptyString
  /\ getSidFromRequest request = Normal None
  /\ attachAuth request st = (Normal tt, mkState (world st) Anonymous (reply st)).
Proof.
  cbv zeta. split; [reflexivity|]. split; [reflexivity|]. split; [reflexivity|].
  apply (empty_sid_is_anonymous (plainRequest (HSingle "theme=dark; sid="))
           "theme=dark; sid="); reflexivity.
Defined.

(** C6 as stated fails when the database answers the lookup and rejects
    the update: the stored session of the token is found, the touch throws,
    and [attachAuth] throws with it, leaving [request.auth] unassigned. *)
Lemma touch_failure_fails_attach :
  let request := plainRequest (HSingle "sid=tok-1") in
  let st := start false (failingSecond loggedIn 1000) in
  getSidFromRequest request = Normal (Some "tok-1")
  /\ (exists row, sessionByTokenHash loggedIn 1000 (sha256 "tok-1") = Some row)
  /\ fst (attachAuth request st) = Throw adminShutdown
  /\ auth (snd (attachAuth request st)) = Unset.
Proof.
  cbv zeta. split; [reflexivity|]. split; [eexists; reflexivity|].
  split; reflexivity.
Qed.

(** The stored session of [tok-1] is found and its touch is rejected. *)
Lemma touch_outcome_decides_attach_witness :
  let request := plainRequest (HSingle "sid=tok-1") in
  let st := start false (failingSecond loggedIn 1000) in
  let row := mkLookup "s-1" "u-1" "Alice@Example.com" 5000 (Some "p-1") in
  getSidFromRequest request = Normal (Some "tok-1")
  /\ faults (world st) = [None; Some adminShutdown]
  /\ sessionByTokenHash (db (world st)) (now (world st)) (sha256 "tok-1") = Some row
  /\ attachAuth request st =
     (Throw adminShutdown,
      mkState (mkWorld loggedIn 1000 []
                       [SelectSessionByTokenHash (sha256 "tok-1");
                        UpdateSessionLastSeen "s-1"])
              Unset (freshReply false)).
Proof.
  cbv zeta. split; [reflexivity|]. split; [reflexivity|]. split; [reflexivity|].
  apply (touch_outcome_decides_attach
           (plainRequest (HSingle "sid=tok-1"))
           (start false (failingSecond loggedIn 1000))
           "tok-1" (mkLookup "s-1" "u-1" "Alice@Example.com" 5000 (Some "p-1"))
           (Some adminShutdown) []); reflexivity.
Defined.

(** Logging out with the cookie of a stored session: the session is gone,
    Alice and her profile are still there. *)
Lemma logout_always_clears_witness :
  let request := plainRequest (HSingle "sid=tok-1") in
  let w := healthy loggedIn 1000 in
  let after := world (snd (logoutUser request (start true w))) in
  (sidOf request = None \/ hd None (faults w) = None)
  /\ (exists r,
        logoutUser request (start true w) =
        (Normal tt,
         mkState (sent_to w (withoutTokenHash (db w) (sha256 "tok-1"))
                          (DeleteSessionByTokenHash (sha256 "tok-1")))
                 Unset r)
        /\ statusCode r = 204%nat /\ payload r = None /\ sent r = true
        /\ clearsSid false r)
  /\ issued after = [DeleteSessionByTokenHash "sha256:tok-1"]
  /\ sessions (db after) = []
  /\ users (db after) = [alice]
  /\ profiles (db after) = [mkProfile "p-1" "u-1"]
  /\ sessionByTokenHash (db after) 1000 "sha256:tok-1" = None.
Proof.
  cbv zeta.
  assert (Hok : sidOf (plainRequest (HSingle "sid=tok-1")) = None
                \/ hd None (faults (healthy loggedIn 1000)) = None)
    by (right; reflexivity).
  split; [exact Hok|].
  destruct (logout_always_clears (plainRequest (HSingle "sid=tok-1")) true
              (healthy loggedIn 1000) Hok)
    as [r [Hrun [Hstatus [Hpayload [Hsent [Hclears
         [Husers [Hprofiles [Hissued [Hsessions [_ [Hgone _]]]]]]]]]]]].
  split.
  { exists r. split; [exact Hrun|]. split; [exact Hstatus|].
    split; [exact Hpayload|]. split; [exact Hsent|]. exact Hclears. }
  split; [exact Hissued|]. split; [exact Hsessions|].
  split; [exact Husers|]. split; [exact Hprofiles|]. exact (Hgone 1000%Z).
Defined.

(** Nobody has the first email; the second is Alice's, with a wrong
    password. *)
Lemma invalid_credentials_indistinguishable_witness :
  let request := plainRequest HAbsent in
  let w := healthy oneUser 1000 in
  hd None (faults w) = None
  /\ userByEmail (db w) "nobody@example.com" = None
  /\ userByEmail (db w) "alice@example.com" = Some alice
  /\ verifyPassword "wrong" (u_password_hash alice) = false
  /\ reply (snd (loginUser request "nobody@example.com" "hunter2" "tok-1" "s-1"
                           (start false w)))
     = reply (snd (loginUser request "alice@example.com" "wrong" "tok-2" "s-2"
                             (start false w))).
Proof.
  cbv zeta. split; [reflexivity|]. split; [reflexivity|].
  split; [reflexivity|]. split; [reflexivity|].
  apply (invalid_credentials_indistinguishable
           (plainRequest HAbsent) (plainRequest HAbsent) false
           (healthy oneUser 1000) (healthy oneUser 1000)
           "nobody@example.com" "hunter2" "tok-1" "s-1"
           "alice@example.com" "wrong" "tok-2" "s-2" alice); reflexivity.
Defined.


End ServiceExamples.

(* ================================================================== *)
(** * The migration runner *)
(* ================================================================== *)

Section SortFacts.

Import Migrations.

Variable compareFn : string -> string -> Z.

Hypothesis compare_total :
  forall a b, Below compareFn a b \/ Below compareFn b a.
Hypothesis compare_trans :
  forall a b c, Below compareFn a b -> Below compareFn b c -> Below compareFn a c.

Lemma insert_permutation (x : string) (l : list string) :
  Permutation (insert compareFn x l) (x :: l).
Proof.
  induction l as [|y l IH]; simpl; [reflexivity|].
  destruct (compareFn x y <=? 0)%Z; [reflexivity|].
  rewrite IH. apply perm_swap.
Qed.

Lemma sort_permutation (l : list string) : Permutation (sort compareFn l) l.
Proof.
  induction l as [|x l IH]; simpl; [reflexivity|].
  rewrite insert_permutation. now apply perm_skip.
Qed.

Lemma insert_sorted (x : string) (l : list string) :
  StronglySorted (Below compareFn) l ->
  StronglySorted (Below compareFn) (insert compareFn x l).
Proof.
  induction 1 as [|y l Hsorted IH Hall]; simpl.
  - repeat constructor.
  - destruct (compareFn x y <=? 0)%Z eqn:E.
    + apply Z.leb_le in E. constructor; [now constructor|].
      constructor; [exact E|].
      eapply Forall_impl; [|exact Hall]. intros z Hz. now apply (compare_trans x y z).
    + apply Z.leb_gt in E. constructor; [exact IH|].
      eapply Permutation_Forall; [symmetry; apply insert_permutation|].
      constructor; [|exact Hall].
      destruct (compare_total x y) as [H|H];
        [unfold Below in H; lia | exact H].
Qed.

Lemma sort_sorted (l : list string) :
  StronglySorted (Below compareFn) (sort compareFn l).
Proof.
  induction l as [|x l IH]; simpl; [constructor | now apply insert_sorted].
Qed.

Lemma sorted_unique (l1 : list string) :
  forall l2,
    (forall a b, In a l1 -> In b l1 ->
                 Below compareFn a b -> Below compareFn b a -> a = b) ->
    StronglySorted (Below compareFn) l1 ->
    StronglySorted (Below compareFn) l2 ->
    Permutation l1 l2 -> l1 = l2.
Proof.
  induction l1 as [|x l1 IH]; intros [|y l2] Hanti H1 H2 Hperm.
  - reflexivity.
  - apply Permutation_nil in Hperm. discriminate.
  - symmetry in Hperm. apply Permutation_nil in Hperm. discriminate.
  - apply StronglySorted_inv in H1 as [H1 Hx].
    apply StronglySorted_inv in H2 as [H2 Hy].
    assert (Hxy : x = y).
    { pose proof (Permutation_in x Hperm (or_introl eq_refl)) as Hxin.
      pose proof (Permutation_in y (Permutation_sym Hperm) (or_introl eq_refl))
        as Hyin.
      destruct Hxin as [Heq|Hxin]; [now symmetry|].
      destruct Hyin as [Heq|Hyin]; [exact Heq|].
      apply Hanti; [now left | now right | |].
      - rewrite Forall_forall in Hx. now apply Hx.
      - rewrite Forall_forall in Hy. now apply Hy. }
    subst y. f_equal. apply IH; [|exact H1|exact H2|].
    + intros a b Ha Hb. apply Hanti; now right.
    + now apply Permutation_cons_inv in Hperm.
Qed.

Lemma filter_permutation (f : string -> bool) (l1 l2 : list string) :
  Permutation l1 l2 -> Permutation (filter f l1) (filter f l2).
Proof.
  induction 1 as [|x l1 l2 H IH|x y l|l1 l2 l3 H12 IH12 H23 IH23]; simpl.
  - constructor.
  - destruct (f x); [now constructor | exact IH].
  - destruct (f x), (f y); try reflexivity. apply perm_swap.
  - now transitivity (filter f l2).
Qed.

End SortFacts.

Section CollationOrder.

Import Migrations.

Lemma compareKeys_opp (a : list nat) :
  forall b, compareKeys b a = CompOpp (compareKeys a b).
Proof.
  induction a as [|x a IH]; intros [|y b]; simpl; try reflexivity.
  rewrite (Nat.compare_antisym x y). destruct (Nat.compare x y); simpl; auto.
Qed.

Lemma compareKeys_trans (a : list nat) :
  forall b c,
    compareKeys a b <> Gt -> compareKeys b c <> Gt -> compareKeys a c <> Gt.
Proof.
  induction a as [|x a IH]; intros [|y b] [|z c]; simpl; try congruence.
  destruct (Nat.compare_spec x y) as [Hxy|Hxy|Hxy];
    destruct (Nat.compare_spec y z) as [Hyz|Hyz|Hyz];
    intros Hab Hbc; try congruence.
  - subst. rewrite Nat.compare_refl. now apply (IH b c).
  - subst. apply Nat.compare_lt_iff in Hyz. rewrite Hyz. discriminate.
  - subst. apply Nat.compare_lt_iff in Hxy. rewrite Hxy. discriminate.
  - assert (H : (x < z)%nat) by lia.
    apply Nat.compare_lt_iff in H. rewrite H. discriminate.
Qed.

Lemma localeCompare_below (a b : string) :
  Below localeCompare a b <-> compareKeys (sortKey a) (sortKey b) <> Gt.
Proof.
  unfold Below, localeCompare.
  destruct (compareKeys (sortKey a) (sortKey b)); split; intros H;
    try lia; try discriminate; congruence.
Qed.

Lemma localeCompare_total (a b : string) :
  Below localeCompare a b \/ Below localeCompare b a.
Proof.
  rewrite !localeCompare_below, (compareKeys_opp (sortKey a) (sortKey b)).
  destruct (compareKeys (sortKey a) (sortKey b)); simpl;
    [left | left | right]; discriminate.
Qed.

Lemma localeCompare_trans (a b c : string) :
  Below localeCompare a b -> Below localeCompare b c -> Below localeCompare a c.
Proof.
  rewrite !localeCompare_below. apply compareKeys_trans.
Qed.

(** Names in printable ASCII that compare equal are the same name. *)
Lemma compareKeys_eq (a : list nat) :
  forall b, compareKeys a b = Eq -> a = b.
Proof.
  induction a as [|x a IH]; intros [|y b]; simpl; try discriminate;
    [reflexivity|].
  destruct (Nat.compare_spec x y) as [Hxy|Hxy|Hxy]; try discriminate.
  intros H. subst y. f_equal. now apply IH.
Qed.

Lemma rank_positive (n : nat) (order : list nat) (p : nat) :
  rank n order = Some p -> p <> 0%nat.
Proof.
  destruct order as [|m rest]; simpl; [discriminate|].
  destruct (n =? m)%nat; [intros [= <-]; discriminate|].
  destruct (rank n rest); simpl; [intros [= <-]; discriminate|discriminate].
Qed.

Lemma primaries_positive (s : string) : Forall (fun p => p <> 0%nat) (primaries s).
Proof.
  induction s as [|c s IH]; simpl; [constructor|].
  destruct (primary c) as [p|] eqn:E; [|exact IH].
  constructor; [|exact IH].
  unfold primary in E. destruct (128 <=? code c)%nat.
  - injection E as <-. lia.
  - now apply rank_positive in E.
Qed.

Lemma key_split (p1 : list nat) :
  forall p2 t1 t2,
    Forall (fun p => p <> 0%nat) p1 -> Forall (fun p => p <> 0%nat) p2 ->
    p1 ++ 0%nat :: t1 = p2 ++ 0%nat :: t2 -> p1 = p2 /\ t1 = t2.
Proof.
  induction p1 as [|x p1 IH]; intros [|y p2] t1 t2 H1 H2 Heq; simpl in Heq.
  - injection Heq as ->. auto.
  - injection Heq as Hy _. apply Forall_inv in H2. congruence.
  - injection Heq as Hx _. apply Forall_inv in H1. congruence.
  - injection Heq as -> Heq.
    apply Forall_inv_tail in H1. apply Forall_inv_tail in H2.
    destruct (IH _ _ _ H1 H2 Heq) as [-> ->]. auto.
Qed.

Lemma charOf_weights (c : ascii) :
  between 32 126 (code c) = true ->
  exists weight, primary c = Some weight /\ charOf weight (tertiary c) = c.
Proof.
  destruct c as [[] [] [] [] [] [] [] []]; intros H; vm_compute in H;
    try discriminate H; eexists; split; reflexivity.
Qed.

Lemma plain_keys_injective (a : string) :
  forall b,
    plainName a = true -> plainName b = true ->
    primaries a = primaries b -> tertiaries a = tertiaries b -> a = b.
Proof.
  induction a as [|x a IH]; intros [|y b] Ha Hb Hp Ht;
    cbn [plainName] in Ha, Hb; cbn [primaries tertiaries] in Hp, Ht.
  - reflexivity.
  - apply andb_prop in Hb as [Hy _].
    destruct (charOf_weights y Hy) as [q [Hq _]]. rewrite Hq in Hp. discriminate.
  - apply andb_prop in Ha as [Hx _].
    destruct (charOf_weights x Hx) as [q [Hq _]]. rewrite Hq in Hp. discriminate.
  - apply andb_prop in Ha as [Hx Ha]. apply andb_prop in Hb as [Hy Hb].
    destruct (charOf_weights x Hx) as [p [Hpx Hcx]].
    destruct (charOf_weights y Hy) as [q [Hqy Hcy]].
    rewrite Hpx, Hqy in Hp, Ht.
    injection Hp as -> Hp. injection Ht as Hc Ht.
    rewrite <- Hcx, <- Hcy, Hc. f_equal. now apply IH.
Qed.

Lemma localeCompare_plain_tie (a b : string) :
  plainName a = true -> plainName b = true ->
  Below localeCompare a b -> Below localeCompare b a -> a = b.
Proof.
  intros Ha Hb Hab Hba.
  apply localeCompare_below in Hab. apply localeCompare_below in Hba.
  rewrite (compareKeys_opp (sortKey a) (sortKey b)) in Hba.
  destruct (compareKeys (sortKey a) (sortKey b)) eqn:E;
    [|now elim Hba|now elim Hab].
  apply compareKeys_eq in E. unfold sortKey in E.
  apply key_split in E as [Hp Ht]; [|apply primaries_positive..].
  now apply plain_keys_injective.
Qed.

Lemma migrationFiles_sorted (dir : Dir) :
  StronglySorted (Below localeCompare) (migrationFiles dir).
Proof.
  apply (sort_sorted localeCompare localeCompare_total localeCompare_trans).
Qed.

Lemma migrationFiles_permutation (dir : Dir) :
  Permutation (migrationFiles dir)
              (filter (fun name => endsWith name ".sql") (readdir dir)).
Proof. apply sort_permutation. Qed.

End CollationOrder.

Section RunnerFacts.

Import Migrations.
Local Open Scope js_scope.

Lemma rowCount_positive (filename : string) (rows : list string) :
  (0 <? List.length (filter (String.eqb filename) rows))%nat
  = existsb (String.eqb filename) rows.
Proof.
  induction rows as [|r rows IH]; [reflexivity|]. simpl.
  destruct (String.eqb filename r); [reflexivity | exact IH].
Qed.

Lemma mquery_runs {A} (stmt : Statement) (run : World -> Completion A * World)
    (w : World) :
  hd None (faults w) = None ->
  query stmt run w =
  run (mkWorld (ledger w) (applied w) (tl (faults w)) (issued w ++ [stmt])).
Proof. intros H. unfold query. now rewrite H. Qed.

(** ** What [pending] contains *)

Lemma pending_In (files : list string) :
  forall rows f, In f (pending files rows) <-> In f files /\ ~ In f rows.
Proof.
  induction files as [|x files IH]; intros rows f; simpl; [tauto|].
  destruct (existsb (String.eqb x) rows) eqn:E.
  - apply existsb_eqb_In in E. rewrite IH. split.
    + intros [Hin Hno]. auto.
    + intros [[->|Hin] Hno]; [contradiction | auto].
  - assert (Hx : ~ In x rows).
    { intros Hin. apply existsb_eqb_In in Hin. congruence. }
    simpl. rewrite IH, in_app_iff. simpl. split.
    + intros [->|[Hin Hno]]; [auto | tauto].
    + intros [[->|Hin] Hno]; [now left|].
      destruct (string_dec x f) as [->|Hne]; [now left|]. right. tauto.
Qed.

Lemma pending_NoDup (files : list string) :
  forall rows, NoDup (pending files rows).
Proof.
  induction files as [|x files IH]; intros rows; simpl; [constructor|].
  destruct (existsb (String.eqb x) rows); [apply IH|].
  constructor; [|apply IH].
  rewrite pending_In, in_app_iff. simpl. tauto.
Qed.

Lemma pending_recorded (files rows : list string) :
  (forall f, In f files -> In f rows) -> pending files rows = [].
Proof.
  intros Hall. destruct (pending files rows) as [|f l] eqn:E; [reflexivity|].
  assert (Hin : In f (pending files rows)) by (rewrite E; now left).
  apply pending_In in Hin as [Hin Hno]. exfalso. auto.
Qed.

Lemma pending_filter (files : list string) :
  forall rows,
    NoDup files ->
    pending files rows = filter (fun f => negb (existsb (String.eqb f) rows)) files.
Proof.
  induction files as [|x files IH]; intros rows Hnd; [reflexivity|].
  inversion Hnd as [|? ? Hx Hnd']; subst. simpl.
  destruct (existsb (String.eqb x) rows); simpl; [now apply IH|].
  f_equal. rewrite (IH _ Hnd'). apply filter_ext_in.
  intros f Hf. rewrite existsb_app. simpl. rewrite orb_false_r.
  assert (Hne : String.eqb f x = false).
  { apply String.eqb_neq. intros ->. contradiction. }
  now rewrite Hne, orb_false_r.
Qed.

(** ** The statements *)

(** What each statement has done when it returns. *)

Lemma query_inv {A} (stmt : Statement) (run : World -> Completion A * World)
    (w w' : World) (a : A) :
  query stmt run w = (Normal a, w') ->
  run (mkWorld (ledger w) (applied w) (tl (faults w)) (issued w ++ [stmt]))
  = (Normal a, w').
Proof.
  unfold query. destruct (hd None (faults w)); [discriminate | trivial].
Qed.

Lemma createLedger_inv (w w' : World) :
  createLedger w = (Normal tt, w') ->
  ledger w' = Some (ledgerRows w)
  /\ applied w' = applied w
  /\ issued w' = issued w ++ [CreateLedgerIfNotExists].
Proof.
  intros H. apply query_inv in H. injection H as <-.
  unfold ledgerRows. cbn. now destruct (ledger w).
Qed.

Lemma selectLedger_inv (f : string) (w w' : World) (n : nat) (rows : list string) :
  ledger w = Some rows ->
  selectLedger f w = (Normal n, w') ->
  (0 <? n)%nat = existsb (String.eqb f) rows
  /\ ledger w' = Some rows
  /\ applied w' = applied w
  /\ issued w' = issued w ++ [SelectLedger f].
Proof.
  intros Hrows H. apply query_inv in H. cbn [ledger] in H. rewrite Hrows in H.
  injection H as <- <-. rewrite rowCount_positive. auto.
Qed.

Lemma readFile_inv (dir : Dir) (f sql : string) (w w' : World) :
  readFile dir f w = (Normal sql, w') -> w' = w /\ sql = content dir f.
Proof.
  unfold readFile, content. destruct (find _ dir); [|discriminate].
  unfold ret. now intros [= <- <-].
Qed.

Lemma runBatch_inv (f sql : string) (w w' : World) :
  runBatch f sql w = (Normal tt, w') ->
  ledger w' = ledger w
  /\ applied w' = applied w ++ [(f, sql)]
  /\ issued w' = issued w ++ [RunBatch sql].
Proof. intros H. apply query_inv in H. injection H as <-. auto. Qed.

Lemma insertLedger_inv (f : string) (w w' : World) (rows : list string) :
  ledger w = Some rows ->
  insertLedger f w = (Normal tt, w') ->
  ledger w' = Some (rows ++ [f])
  /\ applied w' = applied w
  /\ issued w' = issued w ++ [InsertLedger f].
Proof.
  intros Hrows H. apply query_inv in H. cbn [ledger] in H. rewrite Hrows in H.
  destruct (existsb (String.eqb f) rows); [discriminate|].
  injection H as <-. auto.
Qed.

(** ** The loop *)

Lemma applyFiles_inv (dir : Dir) (files : list string) :
  forall w w' rows,
    ledger w = Some rows ->
    applyFiles dir files w = (Normal tt, w') ->
    applied w' = applied w ++ batchesOf dir (pending files rows)
    /\ ledger w' = Some (rows ++ pending files rows)
    /\ issued w' = issued w ++ script dir files rows.
Proof.
  induction files as [|f files IH]; intros w w' rows Hrows Hrun.
  - injection Hrun as <-. simpl. now rewrite !app_nil_r.
  - cbn [applyFiles pending script] in *.
    apply bind_inv in Hrun as [n [w1 [Hselect Hrun]]].
    destruct (selectLedger_inv _ _ _ _ _ Hrows Hselect)
      as [Hcount [Hrows1 [Hdone1 Hlog1]]].
    rewrite Hcount in Hrun.
    destruct (existsb (String.eqb f) rows).
    + destruct (IH _ _ _ Hrows1 Hrun) as [Hdone [Hled Hlog]].
      rewrite Hdone, Hdone1, Hlog, Hlog1, <- app_assoc. auto.
    + apply bind_inv in Hrun as [sql [w2 [Hread Hrun]]].
      apply readFile_inv in Hread as [-> ->].
      apply bind_inv in Hrun as [[] [w3 [Hbatch Hrun]]].
      apply runBatch_inv in Hbatch as [Hrows3 [Hdone3 Hlog3]].
      apply bind_inv in Hrun as [[] [w4 [Hinsert Hrun]]].
      rewrite Hrows1 in Hrows3.
      destruct (insertLedger_inv _ _ _ _ Hrows3 Hinsert) as [Hrows4 [Hdone4 Hlog4]].
      destruct (IH _ _ _ Hrows4 Hrun) as [Hdone [Hled Hlog]].
      repeat split.
      * rewrite Hdone, Hdone4, Hdone3, Hdone1. now rewrite <- app_assoc.
      * rewrite Hled. now rewrite <- app_assoc.
      * rewrite Hlog, Hlog4, Hlog3, Hlog1. now rewrite <- !app_assoc.
Qed.

(** On a database that rejects nothing the loop runs to its end. *)
Lemma applyFiles_runs (dir : Dir) (files : list string) :
  forall w rows,
    faults w = [] ->
    ledger w = Some rows ->
    (forall f, In f files -> In f (readdir dir)) ->
    exists w', applyFiles dir files w = (Normal tt, w').
Proof.
  induction files as [|f files IH]; intros [l done fs log] rows Hfaults Hledger Hdir;
    cbn [ledger faults] in *; subst l fs.
  - eexists. reflexivity.
  - cbn [applyFiles]. unfold selectLedger.
    erewrite bind_normal; [|rewrite mquery_runs by reflexivity; reflexivity].
    rewrite rowCount_positive.
    assert (Hrest : forall x, In x files -> In x (readdir dir))
      by (intros x Hx; apply Hdir; now right).
    destruct (existsb (String.eqb f) rows) eqn:Hin.
    + apply (IH _ rows); [reflexivity | reflexivity | exact Hrest].
    + unfold readFile.
      destruct (find (fun x => String.eqb (fst x) f) dir) as [file|] eqn:Hfind.
      2:{ exfalso. assert (Hf : In f (readdir dir)) by (apply Hdir; now left).
          unfold readdir in Hf. apply in_map_iff in Hf as [x [Hx Hxin]].
          apply (find_none _ _ Hfind) in Hxin. rewrite Hx, String.eqb_refl in Hxin.
          discriminate. }
      unfold bind at 1. unfold ret at 1.
      unfold runBatch, insertLedger.
      erewrite bind_normal; [|rewrite mquery_runs by reflexivity; reflexivity].
      erewrite bind_normal;
        [|rewrite mquery_runs by reflexivity; cbn [ledger]; rewrite Hin; reflexivity].
      apply (IH _ (rows ++ [f])); [reflexivity | reflexivity | exact Hrest].
Qed.

(** ** A whole run *)

Lemma migrationFiles_In (dir : Dir) (f : string) :
  In f (migrationFiles dir) <-> In f (readdir dir) /\ endsWith f ".sql" = true.
Proof.
  rewrite <- (filter_In (fun name => endsWith name ".sql")).
  split; apply Permutation_in.
  - apply migrationFiles_permutation.
  - symmetry. apply migrationFiles_permutation.
Qed.

Lemma runMigrations_inv (dir : Dir) (w w' : World) :
  runMigrations dir w = (Normal tt, w') ->
  applied w' = applied w ++ batchesOf dir (pending (migrationFiles dir) (ledgerRows w))
  /\ ledger w' = Some (ledgerRows w ++ pending (migrationFiles dir) (ledgerRows w))
  /\ issued w' = issued w ++ CreateLedgerIfNotExists
                             :: script dir (migrationFiles dir) (ledgerRows w).
Proof.
  unfold runMigrations. intros Hrun.
  apply bind_inv in Hrun as [[] [w1 [Hcreate Hrun]]].
  apply createLedger_inv in Hcreate as [Hrows [Hdone Hlog]].
  destruct (applyFiles_inv _ _ _ _ _ Hrows Hrun) as [Happ [Hled Hscript]].
  rewrite Happ, Hdone, Hscript, Hlog, <- app_assoc. auto.
Qed.

Lemma runMigrations_runs (dir : Dir) (w : World) :
  faults w = [] -> exists w', runMigrations dir w = (Normal tt, w').
Proof.
  intros Hfaults. unfold runMigrations, createLedger.
  erewrite bind_normal; [|rewrite mquery_runs by (now rewrite Hfaults); reflexivity].
  apply (applyFiles_runs _ _ _ (ledgerRows w)).
  - cbn. now rewrite Hfaults.
  - unfold ledgerRows. cbn. now destruct (ledger w).
  - intros f Hf. now apply migrationFiles_In in Hf.
Qed.

Lemma count_by_name (dir : Dir) (f : string) (files : list string) :
  List.length (filter (fun e => String.eqb (fst e) f) (batchesOf dir files))
  = count_occ string_dec files f.
Proof.
  induction files as [|name files IH]; [reflexivity|]. simpl.
  destruct (string_dec name f) as [->|Hne].
  - rewrite String.eqb_refl. simpl. now rewrite IH.
  - apply String.eqb_neq in Hne. now rewrite Hne.
Qed.

Lemma count_in_NoDup (l : list string) (f : string) :
  NoDup l -> count_occ string_dec l f = if in_dec string_dec f l then 1%nat else 0%nat.
Proof.
  intros Hnd. destruct (in_dec string_dec f l) as [Hin|Hno].
  - now apply NoDup_count_occ'.
  - now apply count_occ_not_In.
Qed.

Lemma script_recorded (dir : Dir) (files rows : list string) :
  (forall f, In f files -> In f rows) -> script dir files rows = map SelectLedger files.
Proof.
  induction files as [|f files IH]; intros Hall; [reflexivity|]. simpl.
  assert (Hf : existsb (String.eqb f) rows = true)
    by (apply existsb_eqb_In, Hall; now left).
  rewrite Hf, IH; [reflexivity|]. intros x Hx. apply Hall. now right.
Qed.

Lemma migrationFiles_plain (dir : Dir) (f : string) :
  forallb plainName (readdir dir) = true ->
  In f (migrationFiles dir) -> plainName f = true.
Proof.
  intros Hplain Hin. apply migrationFiles_In in Hin as [Hin _].
  rewrite forallb_forall in Hplain. now apply Hplain.
Qed.

Lemma localeCompare_tie (a b : string) :
  localeCompare a b = 0%Z -> Below localeCompare a b /\ Below localeCompare b a.
Proof.
  unfold Below, localeCompare.
  rewrite (compareKeys_opp (sortKey a) (sortKey b)).
  destruct (compareKeys (sortKey a) (sortKey b)); simpl; lia.
Qed.

(** C4.  The runner works through the names of the directory that end in
    [.sql], sorted with [localeCompare]: for a directory of distinct names
    in printable ASCII, the list it iterates over is a permutation of those
    names and is sorted in the collation order, that is, each name compares
    below or equal to every name after it, by primary weights first and by
    case on a tie.  No two of the names compare equal, so the order is
    total and the list does not depend on the order in which the directory
    is listed.  A run that completes has executed, in that order, the
    batches of the files that were not in the ledger when it started, and
    nothing else; a run on a database that rejects nothing completes. *)
Theorem migrations_applied_in_sorted_order (dir : Dir) (w : World) :
  NoDup (readdir dir) ->
  forallb plainName (readdir dir) = true ->
  let files := migrationFiles dir in
  Permutation files (filter (fun name => endsWith name ".sql") (readdir dir))
  /\ StronglySorted (Below localeCompare) files
  /\ StronglySorted
       (fun a b => compareKeys (sortKey a) (sortKey b) <> Gt) files
  /\ (forall a b, In a files -> In b files -> localeCompare a b = 0%Z -> a = b)
  /\ (forall dir',
        Permutation (readdir dir') (readdir dir) -> migrationFiles dir' = files)
  /\ (forall w',
        runMigrations dir w = (Normal tt, w') ->
        applied w' =
        applied w ++ batchesOf dir (filter (fun f => negb (inLedger w f)) files))
  /\ (faults w = [] -> exists w', runMigrations dir w = (Normal tt, w')).
Proof.
  intros Hnd Hplain files.
  split; [apply migrationFiles_permutation|].
  split; [apply migrationFiles_sorted|].
  split.
  { pose proof (migrationFiles_sorted dir) as H. fold files in H.
    induction H as [|x l Hs IH Hall]; constructor; [exact IH|].
    eapply Forall_impl; [|exact Hall]. intros y. apply localeCompare_below. }
  split.
  { intros a b Ha Hb Htie. apply localeCompare_tie in Htie as [Hab Hba].
    apply localeCompare_plain_tie; try assumption;
      now apply (migrationFiles_plain dir). }
  split.
  { intros dir' Hperm. symmetry.
    apply (sorted_unique localeCompare).
    - intros a b Ha Hb. apply localeCompare_plain_tie;
        now apply (migrationFiles_plain dir).
    - apply migrationFiles_sorted.
    - apply migrationFiles_sorted.
    - unfold files.
      rewrite (migrationFiles_permutation dir), (migrationFiles_permutation dir').
      apply filter_permutation. now symmetry. }
  split; [|apply runMigrations_runs].
  intros w' Hrun.
  destruct (runMigrations_inv _ _ _ Hrun) as [Happ _].
  rewrite Happ. do 2 f_equal. apply pending_filter.
  apply (Permutation_NoDup (l := filter (fun name => endsWith name ".sql") (readdir dir))).
  - symmetry. apply migrationFiles_permutation.
  - now apply NoDup_filter.
Qed.

(** C2.  Two complete runs in sequence over the same directory, from a
    ledger without duplicate rows.  The first run sends, for each [.sql]
    file in order, the [SELECT] on the ledger and, when the file is not
    recorded, its batch and then the [INSERT] of its name; the second run
    sends the [SELECT]s only, executes nothing and leaves the ledger as it
    found it.  So every [.sql] file of the directory that was not in the
    ledger has had its batch executed exactly once, every one that was in
    the ledger not at all, and the ledger ends with exactly one row for each
    of these files. *)
Theorem migrations_idempotent (dir : Dir) (w0 w1 w2 : World)
    (faults2 : list (option Exn)) :
  NoDup (ledgerRows w0) ->
  runMigrations dir w0 = (Normal tt, w1) ->
  runMigrations dir (refault faults2 w1) = (Normal tt, w2) ->
  let files := migrationFiles dir in
  issued w1 = issued w0 ++ CreateLedgerIfNotExists :: script dir files (ledgerRows w0)
  /\ issued w2 = issued w1 ++ CreateLedgerIfNotExists :: map SelectLedger files
  /\ applied w2 = applied w1
  /\ ledger w2 = ledger w1
  /\ forall f,
       In f (readdir dir) -> endsWith f ".sql" = true ->
       timesApplied f w2
       = (timesApplied f w0 + if inLedger w0 f then 0 else 1)%nat
       /\ count_occ string_dec (ledgerRows w2) f = 1%nat.
Proof.
  intros Hnd Hrun1 Hrun2 files.
  destruct (runMigrations_inv _ _ _ Hrun1) as [Happ1 [Hled1 Hlog1]].
  destruct (runMigrations_inv _ _ _ Hrun2) as [Happ2 [Hled2 Hlog2]].
  fold files in Happ1, Hled1, Hlog1, Happ2, Hled2, Hlog2.
  set (rows0 := ledgerRows w0) in *.
  assert (Hrows1 : ledgerRows (refault faults2 w1) = rows0 ++ pending files rows0).
  { unfold ledgerRows, refault. cbn. now rewrite Hled1. }
  rewrite Hrows1 in Happ2, Hled2, Hlog2.
  assert (Hall : forall f, In f files -> In f (rows0 ++ pending files rows0)).
  { intros f Hf. apply in_app_iff.
    destruct (in_dec string_dec f rows0) as [Hin|Hno]; [now left|].
    right. apply pending_In. auto. }
  rewrite (pending_recorded _ _ Hall) in Happ2, Hled2.
  rewrite (script_recorded _ _ _ Hall) in Hlog2.
  cbn [batchesOf map] in Happ2. rewrite app_nil_r in Happ2, Hled2.
  cbn [refault applied issued] in Happ2, Hlog2.
  split; [exact Hlog1|].
  split; [exact Hlog2|].
  split; [exact Happ2|].
  split; [now rewrite Hled1, Hled2|].
  intros f Hdir Hsql.
  assert (Hfile : In f files) by (apply migrationFiles_In; auto).
  pose proof (pending_NoDup files rows0) as Hnd'.
  assert (Hrecorded : inLedger w0 f = true <-> In f rows0)
    by apply existsb_eqb_In.
  split.
  - unfold timesApplied. rewrite Happ2, Happ1, filter_app, length_app.
    f_equal. rewrite count_by_name, (count_in_NoDup _ _ Hnd').
    destruct (in_dec string_dec f (pending files rows0)) as [Hin|Hno].
    + apply pending_In in Hin as [_ Hno].
      destruct (inLedger w0 f); [exfalso; apply Hno; now apply Hrecorded|reflexivity].
    + destruct (inLedger w0 f) eqn:E; [reflexivity|].
      exfalso. apply Hno, pending_In. split; [exact Hfile|].
      intros Hin. apply Hrecorded in Hin. congruence.
  - unfold ledgerRows. rewrite Hled2. rewrite count_occ_app.
    rewrite (count_in_NoDup _ _ Hnd), (count_in_NoDup _ _ Hnd').
    destruct (in_dec string_dec f rows0) as [Hin|Hno];
      destruct (in_dec string_dec f (pending files rows0)) as [Hin'|Hno'];
      try reflexivity.
    + apply pending_In in Hin' as [_ Hx]. contradiction.
    + exfalso. apply Hno', pending_In. auto.
Qed.

End RunnerFacts.

Section RunnerExamples.

Import Migrations.

(** A directory listed out of order, with a file that is not a
    migration. *)
Lemma migrations_applied_in_sorted_order_witness :
  (NoDup (readdir twoFiles) /\ forallb plainName (readdir twoFiles) = true)
  /\ migrationFiles twoFiles = ["001_a.sql"; "002_b.sql"]
  /\ StronglySorted (Below localeCompare) (migrationFiles twoFiles)
  /\ exists w',
       runMigrations twoFiles fresh = (Normal tt, w')
       /\ applied w' = [("001_a.sql", "CREATE TABLE a ()");
                        ("002_b.sql", "CREATE TABLE b ()")].
Proof.
  assert (Hnd : NoDup (readdir twoFiles)).
  { repeat constructor; simpl; intuition discriminate. }
  assert (Hplain : forallb plainName (readdir twoFiles) = true) by reflexivity.
  split; [split; assumption|]. split; [reflexivity|].
  destruct (migrations_applied_in_sorted_order twoFiles fresh Hnd Hplain)
    as [_ [Hsorted [_ [_ [_ [Horder Hruns]]]]]].
  split; [exact Hsorted|].
  destruct (Hruns eq_refl) as [w' Hrun].
  exists w'. split; [exact Hrun|]. exact (Horder w' Hrun).
Defined.

(** C4 as stated fails on names in both cases and on numbers that are not
    padded.  With the files [B.sql] and [a.sql] the runner works through
    [a.sql] first, and a run on an empty database executes the batches in
    that order, although [B.sql] is the smaller name in the lexicographic
    order of strings; with [1_init.sql], [2_next.sql] and [10_more.sql] it
    takes [1_init.sql] before [10_more.sql], which is the smaller name
    lexicographically.  In neither case is the list it works through
    sorted lexicographically. *)
Lemma migrations_not_lexicographic :
  (NoDup (readdir mixedCase) /\ forallb plainName (readdir mixedCase) = true)
  /\ migrationFiles mixedCase = ["a.sql"; "B.sql"]
  /\ LexLe "B.sql" "a.sql" /\ ~ LexLe "a.sql" "B.sql"
  /\ ~ StronglySorted LexLe (migrationFiles mixedCase)
  /\ (exists w',
        runMigrations mixedCase fresh = (Normal tt, w')
        /\ map fst (applied w') = ["a.sql"; "B.sql"])
  /\ migrationFiles numbered = ["1_init.sql"; "10_more.sql"; "2_next.sql"]
  /\ LexLe "10_more.sql" "1_init.sql" /\ ~ LexLe "1_init.sql" "10_more.sql"
  /\ ~ StronglySorted LexLe (migrationFiles numbered).
Proof.
  split.
  { split; [|reflexivity]. repeat constructor; simpl; intuition discriminate. }
  split; [reflexivity|]. split; [reflexivity|]. split; [discriminate|].
  split.
  { intros H. apply StronglySorted_inv in H as [_ H].
    apply Forall_inv in H. discriminate H. }
  split.
  { exists (snd (runMigrations mixedCase fresh)).
    split; vm_compute; reflexivity. }
  split; [vm_compute; reflexivity|]. split; [reflexivity|]. split; [discriminate|].
  intros H. apply StronglySorted_inv in H as [_ H].
  apply Forall_inv in H. discriminate H.
Qed.

(** Two runs over that directory from a database without ledger. *)
Lemma migrations_idempotent_witness :
  let w1 := snd (runMigrations twoFiles fresh) in
  let w2 := snd (runMigrations twoFiles (refault [] w1)) in
  (NoDup (ledgerRows fresh)
   /\ runMigrations twoFiles fresh = (Normal tt, w1)
   /\ runMigrations twoFiles (refault [] w1) = (Normal tt, w2))
  /\ applied w2 = applied w1
  /\ ledger w2 = ledger w1
  /\ timesApplied "001_a.sql" w2 = 1%nat
  /\ count_occ string_dec (ledgerRows w2) "002_b.sql" = 1%nat.
Proof.
  cbv zeta.
  assert (Hnd : NoDup (ledgerRows fresh)) by constructor.
  set (w1 := snd (runMigrations twoFiles fresh)).
  set (w2 := snd (runMigrations twoFiles (refault [] w1))).
  assert (Hrun1 : runMigrations twoFiles fresh = (Normal tt, w1)) by reflexivity.
  assert (Hrun2 : runMigrations twoFiles (refault [] w1) = (Normal tt, w2))
    by reflexivity.
  split; [repeat split; assumption|].
  destruct (migrations_idempotent twoFiles fresh w1 w2 [] Hnd Hrun1 Hrun2)
    as [_ [_ [Happ [Hled Hfiles]]]].
  split; [exact Happ|]. split; [exact Hled|].
  split.
  - apply (Hfiles "001_a.sql"); [right; right; now left | reflexivity].
  - apply (Hfiles "002_b.sql"); [now left | reflexivity].
Defined.

End RunnerExamples.

(* ================================================================== *)
(** * The session cookie, written and read back *)
(* ================================================================== *)

Section CookieRoundTrip.

Import Auth Text.

Lemma hexVal_hexDigit (k : nat) : (k < 16)%nat -> hexVal (hexDigit k) = Some k.
Proof.
  intros H. do 16 (destruct k as [|k]; [reflexivity|]). lia.
Qed.

Lemma hexDigit_unreserved (k : nat) : (k < 16)%nat -> unreserved (hexDigit k) = true.
Proof.
  intros H. do 16 (destruct k as [|k]; [reflexivity|]). lia.
Qed.

(** Facts about single characters, by inspection of the 256 of them. *)
Lemma unreserved_facts (c : ascii) :
  unreserved c = true ->
  Ascii.eqb c "%"%char = false /\ (code c <? 128)%nat = true.
Proof.
  destruct c as [[] [] [] [] [] [] [] []]; intros H; try discriminate H;
    split; reflexivity.
Qed.

Lemma written_facts (c : ascii) :
  written c = true ->
  solid c = true /\ Ascii.eqb c ";"%char = false /\ Ascii.eqb c "="%char = false.
Proof.
  destruct c as [[] [] [] [] [] [] [] []]; intros H; try discriminate H;
    repeat split; reflexivity.
Qed.

Lemma code_split (c : ascii) :
  (code c / 16 < 16)%nat /\ (code c mod 16 < 16)%nat
  /\ (16 * (code c / 16) + code c mod 16)%nat = code c.
Proof.
  pose proof (nat_ascii_bounded c) as Hb. unfold code.
  split; [apply Nat.Div0.div_lt_upper_bound; lia|].
  split; [apply Nat.mod_upper_bound; lia|].
  symmetry. apply Nat.div_mod_eq.
Qed.

Lemma tokens_encode (s : string) :
  tokens (encodeURIComponent s) = Normal (encoded s).
Proof.
  unfold encoded. induction s as [|c s IH]; [reflexivity|].
  cbn [encodeURIComponent list_ascii_of_string map].
  destruct (unreserved c) eqn:U.
  - destruct (unreserved_facts c U) as [Hpct _].
    cbn [tokens]. now rewrite Hpct, IH.
  - destruct (code_split c) as [Hhi [Hlo Hsum]].
    cbn [tokens]. change (Ascii.eqb "%"%char "%"%char) with true. cbn iota.
    rewrite (hexVal_hexDigit _ Hhi), (hexVal_hexDigit _ Hlo), IH. cbn [cbind].
    now rewrite Hsum.
Qed.

Lemma byte_code (c : ascii) : byte (code c) = c.
Proof. apply ascii_nat_embedding. Qed.

Lemma decode_encoded (s : string) :
  forall p,
    match p with Some q => (128 <= lo q)%nat | None => True end ->
    utf8From s p = true ->
    decodeTokens (encoded s) p = Normal s.
Proof.
  unfold encoded.
  induction s as [|c s IH]; intros [q|] Hq Hwf; cbn [utf8From] in Hwf;
    try discriminate; [reflexivity| |];
    cbn [list_ascii_of_string map].
  - destruct (between (lo q) (hi q) (code c)) eqn:Hrange; [|discriminate].
    assert (Hhigh : unreserved c = false).
    { destruct (unreserved c) eqn:U; [|reflexivity].
      destruct (unreserved_facts c U) as [_ Hlow]. apply Nat.ltb_lt in Hlow.
      unfold between in Hrange. apply andb_true_iff in Hrange as [Hlo _].
      apply Nat.leb_le in Hlo. lia. }
    rewrite Hhigh. cbn [decodeTokens]. rewrite Hrange.
    rewrite IH; [cbn [cbind]; now rewrite byte_code | | exact Hwf].
    destruct (more q) as [|[|k]]; cbn; lia || exact I.
  - destruct (unreserved c) eqn:U.
    + destruct (unreserved_facts c U) as [_ Hlow]. rewrite Hlow in Hwf.
      cbn [decodeTokens]. now rewrite (IH None I Hwf).
    + cbn [decodeTokens]. destruct (code c <? 128)%nat.
      * rewrite (IH None I Hwf). cbn [cbind]. now rewrite byte_code.
      * destruct (lead (code c)) as [q|] eqn:Hlead; [|discriminate].
        rewrite IH; [cbn [cbind]; now rewrite byte_code | | exact Hwf].
        unfold lead in Hlead.
        repeat match type of Hlead with
               | (if ?b then _ else _) = _ => destruct b
               end; try discriminate; injection Hlead as <-; cbn; lia.
Qed.

(** Decoding undoes encoding on every well-formed string. *)
Lemma decode_encode (s : string) :
  wellFormed s = true -> decodeURIComponent (encodeURIComponent s) = Normal s.
Proof.
  intros Hwf. unfold decodeURIComponent. rewrite tokens_encode. cbn [cbind].
  now apply decode_encoded.
Qed.

Lemma encode_written (s : string) : allChars written (encodeURIComponent s) = true.
Proof.
  induction s as [|c s IH]; [reflexivity|]. cbn [encodeURIComponent].
  destruct (unreserved c) eqn:U; cbn [allChars].
  - unfold written at 1. now rewrite U, IH.
  - destruct (code_split c) as [Hhi [Hlo _]].
    unfold written at 2 3. rewrite (hexDigit_unreserved _ Hhi), (hexDigit_unreserved _ Hlo).
    now rewrite IH.
Qed.

Lemma encode_truthy (s : string) :
  truthyStr s = true -> truthyStr (encodeURIComponent s) = true.
Proof.
  destruct s as [|c s]; [discriminate|]. intros _. cbn [encodeURIComponent].
  now destruct (unreserved c).
Qed.

(** ** Splitting and trimming text without separators or white space *)

Lemma allChars_app (test : ascii -> bool) (a b : string) :
  allChars test (a ++ b) = allChars test a && allChars test b.
Proof.
  induction a as [|c a IH]; [reflexivity|]. simpl. now rewrite IH, andb_assoc.
Qed.

Lemma allChars_impl (test test' : ascii -> bool) (s : string) :
  (forall c, test c = true -> test' c = true) ->
  allChars test s = true -> allChars test' s = true.
Proof.
  intros Himp. induction s as [|c s IH]; [reflexivity|]. simpl.
  intros H. apply andb_true_iff in H as [Hc Hs].
  now rewrite (Himp c Hc), (IH Hs).
Qed.

Lemma split_clean (sep : ascii) (a : string) :
  allChars (fun c => negb (Ascii.eqb c sep)) a = true -> split sep a = [a].
Proof.
  induction a as [|c a IH]; [reflexivity|]. simpl. intros H.
  apply andb_true_iff in H as [Hc Ha]. apply negb_true_iff in Hc.
  now rewrite Hc, (IH Ha).
Qed.

Lemma split_first (sep : ascii) (a rest : string) :
  allChars (fun c => negb (Ascii.eqb c sep)) a = true ->
  split sep (a ++ String sep rest) = a :: split sep rest.
Proof.
  induction a as [|c a IH]; simpl; intros H.
  - now rewrite Ascii.eqb_refl.
  - apply andb_true_iff in H as [Hc Ha]. apply negb_true_iff in Hc.
    now rewrite Hc, (IH Ha).
Qed.

Lemma rev_onto_twice (s : string) :
  forall a b, rev_onto (rev_onto s a) b = rev_onto a (s ++ b)%string.
Proof.
  induction s as [|c s IH]; intros a b; [reflexivity|]. simpl. now rewrite IH.
Qed.

Lemma append_empty (s : string) : (s ++ "")%string = s.
Proof. induction s as [|c s IH]; [reflexivity|]. simpl. now rewrite IH. Qed.

Lemma reverse_reverse (s : string) : reverse (reverse s) = s.
Proof. unfold reverse. rewrite rev_onto_twice. simpl. apply append_empty. Qed.

Lemma allChars_rev_onto (test : ascii -> bool) (s : string) :
  forall acc,
    allChars test s = true -> allChars test acc = true ->
    allChars test (rev_onto s acc) = true.
Proof.
  induction s as [|c s IH]; intros acc Hs Hacc; [exact Hacc|]. simpl in *.
  apply andb_true_iff in Hs as [Hc Hs]. apply IH; [exact Hs|].
  simpl. now rewrite Hc, Hacc.
Qed.

Lemma solid_not_space (a : ascii) :
  solid a = true ->
  isWs1 a = false
  /\ (forall b, isWs2 a b = false /\ isWs2 b a = false)
  /\ (forall b c, isWs3 a b c = false /\ isWs3 c b a = false).
Proof.
  unfold solid. intros H. apply andb_true_iff in H as [Hlow Hws].
  apply negb_true_iff in Hws. apply Nat.ltb_lt in Hlow.
  assert (Hne : forall k, (128 <= k)%nat -> (code a =? k)%nat = false)
    by (intros k Hk; apply Nat.eqb_neq; lia).
  assert (Hle : forall k, (128 <= k)%nat -> (k <=? code a)%nat = false)
    by (intros k Hk; apply Nat.leb_gt; lia).
  split; [exact Hws|]. split.
  - intros b. unfold isWs2. rewrite !Hne by lia. now rewrite andb_false_r.
  - intros b c. unfold isWs3, between. cbv zeta.
    rewrite !Hne by lia. rewrite !Hle by lia.
    cbn [andb orb]. now rewrite !andb_false_r.
Qed.

Lemma trimStart_solid (s : string) : allChars solid s = true -> trimStart s = s.
Proof.
  destruct s as [|a s]; [reflexivity|]. simpl allChars. intros H.
  apply andb_true_iff in H as [Ha _].
  destruct (solid_not_space a Ha) as [H1 [H2 H3]].
  cbn [trimStart]. rewrite H1.
  destruct s as [|b s]; [reflexivity|]. rewrite (proj1 (H2 b)).
  destruct s as [|c s]; [reflexivity|]. now rewrite (proj1 (H3 b c)).
Qed.

Lemma trimStartRev_solid (s : string) : allChars solid s = true -> trimStartRev s = s.
Proof.
  destruct s as [|a s]; [reflexivity|]. simpl allChars. intros H.
  apply andb_true_iff in H as [Ha _].
  destruct (solid_not_space a Ha) as [H1 [H2 H3]].
  cbn [trimStartRev]. rewrite H1.
  destruct s as [|b s]; [reflexivity|]. rewrite (proj2 (H2 b)).
  destruct s as [|c s]; [reflexivity|]. now rewrite (proj2 (H3 b c)).
Qed.

Lemma trim_solid (s : string) : allChars solid s = true -> trim s = s.
Proof.
  intros H. unfold trim, trimEnd. rewrite (trimStart_solid s H).
  rewrite trimStartRev_solid; [apply reverse_reverse|].
  unfold reverse. now apply allChars_rev_onto.
Qed.

(** A header that starts with [sid=] followed by the percent-encoded token,
    and that ends there or goes on with [;], yields the token. *)
Lemma encoded_sid_read_back (sid rest : string) :
  wellFormed sid = true ->
  truthyStr sid = true ->
  rest = EmptyString \/ (exists more, rest = String ";"%char more) ->
  parseCookieHeader (Some ("sid=" ++ encodeURIComponent sid ++ rest)%string) "sid"
  = Normal (Some sid).
Proof.
  intros Hwf Hsid Hrest.
  set (enc := encodeURIComponent sid).
  assert (Hwritten : forall c, written c = true ->
            solid c = true /\ Ascii.eqb c ";"%char = false
            /\ Ascii.eqb c "="%char = false) by apply written_facts.
  pose proof (encode_written sid) as Henc. fold enc in Henc.
  assert (Hsolid : allChars solid ("sid=" ++ enc) = true).
  { rewrite allChars_app. apply andb_true_iff. split; [reflexivity|].
    revert Henc. apply allChars_impl. intros c Hc. now apply Hwritten. }
  assert (Hsemi : allChars (fun c => negb (Ascii.eqb c ";"%char)) ("sid=" ++ enc) = true).
  { rewrite allChars_app. apply andb_true_iff. split; [reflexivity|].
    revert Henc. apply allChars_impl. intros c Hc.
    destruct (Hwritten c Hc) as [_ [H _]]. now rewrite H. }
  assert (Heq : allChars (fun c => negb (Ascii.eqb c "="%char)) enc = true).
  { revert Henc. apply allChars_impl. intros c Hc.
    destruct (Hwritten c Hc) as [_ [_ H]]. now rewrite H. }
  assert (Hentries : exists others,
            split ";"%char (("sid=" ++ enc) ++ rest) = ("sid=" ++ enc)%string :: others).
  { destruct Hrest as [->|[more ->]].
    - rewrite append_empty, split_clean by exact Hsemi. now exists [].
    - rewrite split_first by exact Hsemi. eauto. }
  destruct Hentries as [others Hentries].
  unfold parseCookieHeader. cbn [append truthyStr negb].
  change (String "s" (String "i" (String "d" (String "=" (enc ++ rest)))))%string
    with (("sid=" ++ enc) ++ rest)%string.
  rewrite Hentries. cbn [parseEntries]. rewrite (trim_solid _ Hsolid).
  change ("sid=" ++ enc)%string with ("sid" ++ String "="%char enc)%string.
  rewrite split_first by reflexivity. rewrite (split_clean _ _ Heq).
  cbn [String.eqb Ascii.eqb Bool.eqb negb join].
  unfold enc. rewrite (encode_truthy _ Hsid). cbn [negb].
  now rewrite decode_encode.
Qed.

(** X1.  The cookie that [setSessionCookie] writes without the cookie
    plugin is read back by [parseCookieHeader]: for every non-empty token
    that is a well-formed string, the reply gets one [set-cookie] header,
    and both that header value and the Cookie header a client builds from
    it, [sid=] followed by the percent-encoded token, parse to the token
    itself, whatever characters it contains. *)
Theorem session_cookie_round_trip {dates : DateFormat}
    (sid : string) (isProd : bool) (expiresAt : Z) (w : World) (a : AuthSlot) :
  wellFormed sid = true ->
  truthyStr sid = true ->
  parseCookieHeader (Some ("sid=" ++ encodeURIComponent sid)%string) "sid"
  = Normal (Some sid)
  /\ exists value,
       setSessionCookie sid isProd expiresAt (mkState w a (freshReply false))
       = (Normal tt, mkState w a (mkReply false 200 [("set-cookie", value)] [] false None))
       /\ parseCookieHeader (Some value) "sid" = Normal (Some sid).
Proof.
  intros Hwf Hsid. split.
  - rewrite <- (append_empty (encodeURIComponent sid)).
    apply encoded_sid_read_back; auto.
  - exists ("sid=" ++ encodeURIComponent sid ++ "; Path=/; HttpOnly; SameSite=Lax"
              ++ (if isProd then "; Secure" else "") ++ "; Expires="
              ++ toUTCString expiresAt)%string.
    split; [reflexivity|].
    apply encoded_sid_read_back; [exact Hwf | exact Hsid|].
    right. eexists. reflexivity.
Qed.

End CookieRoundTrip.

(* ================================================================== *)
(** * More on the failure classifier *)
(* ================================================================== *)

Section ClassifierMore.

Import Classifier.

Lemma classified_iff_reach (h : Heap) (error : value) :
  isServiceUnavailableError h error = Some true
  <-> exists x, Reach h error x /\ examine (props h x) = true.
Proof.
  destruct (walk_total h error) as [b [seen [Hw _]]].
  specialize (Hw (enough h) (le_n _)).
  unfold isServiceUnavailableError. rewrite Hw. cbn [option_map fst].
  rewrite <- (walk_answer _ _ _ _ _ _ Hw).
  - split; [now intros [= ->] | now intros ->].
  - intros s [].
  - intros s [].
Qed.

Lemma classified_total (h : Heap) (error : value) :
  exists b, isServiceUnavailableError h error = Some b.
Proof.
  destruct (walk_total h error) as [b [seen [Hw _]]].
  exists b. unfold isServiceUnavailableError. now rewrite (Hw (enough h) (le_n _)).
Qed.

(** X2.  A value that is not an object is never classified as service
    unavailable, whatever it says: [undefined], [null], a boolean, a number
    or a string thrown as it is, even the string of a known code or hint. *)
Theorem primitives_are_not_unavailable (h : Heap) :
  isServiceUnavailableError h VUndefined = Some false
  /\ isServiceUnavailableError h VNull = Some false
  /\ (forall b, isServiceUnavailableError h (VBool b) = Some false)
  /\ (forall n, isServiceUnavailableError h (VNum n) = Some false)
  /\ (forall s, isServiceUnavailableError h (VStr s) = Some false).
Proof.
  unfold isServiceUnavailableError, enough.
  repeat split; try reflexivity.
  - intros []; reflexivity.
  - intros n. cbn [walk truthy has existsb negb andb].
    destruct (negb (n =? 0)%Z); reflexivity.
  - intros s. cbn [walk truthy has existsb negb andb].
    destruct (truthyStr s); reflexivity.
Qed.

(** X3.  One step of the classifier, without its visited set: an error
    that passes the tests of the loop body is service unavailable, and any
    other value is classified exactly as its [cause] is.  This holds on
    cyclic chains too. *)
Theorem classified_as_its_cause (h : Heap) (error : value) :
  isServiceUnavailableError h error =
  if examine (props h error) then Some true
  else isServiceUnavailableError h (cause (props h error)).
Proof.
  destruct (examine (props h error)) eqn:Hex.
  - apply classified_iff_reach. exists error. split; [constructor | exact Hex].
  - destruct (classified_total h error) as [b Hb].
    destruct (classified_total h (cause (props h error))) as [b' Hb'].
    rewrite Hb, Hb'. f_equal.
    destruct b, b'; try reflexivity.
    + apply classified_iff_reach in Hb as [x [Hr Hx]].
      assert (Hc : isServiceUnavailableError h (cause (props h error)) = Some true).
      { apply classified_iff_reach. exists x. split; [|exact Hx].
        inversion Hr; subst; [congruence | assumption]. }
      congruence.
    + apply classified_iff_reach in Hb' as [x [Hr Hx]].
      assert (Hc : isServiceUnavailableError h error = Some true).
      { apply classified_iff_reach. exists x. split; [|exact Hx].
        now apply reach_cause. }
      congruence.
Qed.

(** X4.  An error object whose [code] is one of the known codes is service
    unavailable whatever its message and its cause are; so is the error
    [probeDatabase] rejects with, whose code is [ETIMEDOUT] although its
    message, "timed out", contains none of the hints. *)
Theorem known_code_is_enough (h : Heap) (addr : nat) (c : ErrorLike) (known : string) :
  nth_error h addr = Some c ->
  code c = VStr known ->
  In known SERVICE_UNAVAILABLE_DB_CODES ->
  isServiceUnavailableError h (VObj addr) = Some true.
Proof.
  intros Hat Hcode Hin.
  apply classified_iff_reach. exists (VObj addr). split; [constructor|].
  cbn [props]. rewrite (nth_error_nth _ _ _ Hat).
  apply examine_spec. left. exists known. auto.
Qed.

End ClassifierMore.

(* ================================================================== *)
(** * More on sessions *)
(* ================================================================== *)

Section SessionMore.

Import Auth Account.
Local Open Scope js_scope.

Context {crypto : Crypto} {dates : DateFormat}.

(** Every way [attachAuth] can go. *)
Lemma attach_cases (request : Request) (st : State) :
  let w := world st in
  attachAuth request st =
  match sidOf request with
  | None => (Normal tt, mkState w Anonymous (reply st))
  | Some sid =>
      let lookup := SelectSessionByTokenHash (sha256 sid) in
      match hd None (faults w) with
      | Some e => (Throw e, mkState (sent_to w (db w) lookup) (auth st) (reply st))
      | None =>
          match sessionByTokenHash (db w) (now w) (sha256 sid) with
          | None => (Normal tt, mkState (sent_to w (db w) lookup) Anonymous (reply st))
          | Some row =>
              let w1 := sent_to w (db w) lookup in
              let touch := UpdateSessionLastSeen (session_id row) in
              match hd None (faults w1) with
              | Some e =>
                  (Throw e, mkState (sent_to w1 (db w) touch) (auth st) (reply st))
              | None =>
                  (Normal tt,
                   mkState (sent_to w1 (touched (db w) (now w) (session_id row)) touch)
                           (Bound (mkPrincipal sid (session_id row) (user_id row)
                                               (l_email row) (profile_id row)
                                               (expires_at row)))
                           (reply st))
              end
          end
      end
  end.
Proof.
  intros w. subst w. unfold attachAuth.
  erewrite bind_normal; [|unfold lift; rewrite getSidFromRequest_spec; reflexivity].
  destruct (sidOf request) as [sid|] eqn:Hsid; [|reflexivity].
  rewrite (sidOf_truthy _ _ Hsid). cbn [negb]. cbv zeta.
  unfold findSessionByTokenHash, touchSession.
  destruct (hd None (faults (world st))) as [e|] eqn:F1.
  { erewrite bind_throw; [reflexivity | apply query_fails; exact F1]. }
  erewrite bind_normal; [|apply query_runs; exact F1]. cbn [fst snd].
  destruct (sessionByTokenHash (db (world st)) (now (world st)) (sha256 sid))
    as [row|]; [|reflexivity].
  match goal with
  | |- context [hd None (faults ?w1)] => destruct (hd None (faults w1)) as [e|] eqn:F2
  end.
  { erewrite bind_throw by (apply query_fails; exact F2). reflexivity. }
  erewrite bind_normal by (apply query_runs; exact F2). reflexivity.
Qed.

(** ** Tokens without a live session *)

Lemma expired_or_unknown (d : Db) (t : Z) (tokenHash : string) :
  (forall s, In s (sessions d) -> s_token_hash s = tokenHash ->
             (s_expires_at s <= t)%Z) ->
  sessionByTokenHash d t tokenHash = None.
Proof.
  intros Hold. unfold sessionByTokenHash, selectSessions.
  rewrite filter_none; [reflexivity|].
  intros s Hin. unfold liveWithHash.
  destruct (String.eqb_spec (s_token_hash s) tokenHash) as [Heq|Hne]; [|reflexivity].
  cbn [andb]. apply Z.ltb_ge. now apply Hold.
Qed.

Lemma attach_without_live_session (request : Request) (st : State) (sid : string) :
  sidOf request = Some sid ->
  hd None (faults (world st)) = None ->
  (forall s, In s (sessions (db (world st))) -> s_token_hash s = sha256 sid ->
             (s_expires_at s <= now (world st))%Z) ->
  attachAuth request st =
  (Normal tt,
   mkState (sent_to (world st) (db (world st)) (SelectSessionByTokenHash (sha256 sid)))
           Anonymous (reply st)).
Proof.
  intros Hsid Hfault Hold.
  rewrite attach_cases. cbv zeta. rewrite Hsid, Hfault.
  now rewrite (expired_or_unknown _ _ _ Hold).
Qed.

(** X5.  A token without a live session leaves the request anonymous and
    is no error: when every stored session with the fingerprint of the
    token has expired (or there is none), [attachAuth] returns normally
    with [request.auth] null after the one [SELECT]; it writes nothing, so
    expired sessions stay in the table. *)
Theorem stale_token_is_anonymous (request : Request) (st : State) (sid : string) :
  sidOf request = Some sid ->
  hd None (faults (world st)) = None ->
  (forall s, In s (sessions (db (world st))) -> s_token_hash s = sha256 sid ->
             (s_expires_at s <= now (world st))%Z) ->
  attachAuth request st =
  (Normal tt,
   mkState (sent_to (world st) (db (world st)) (SelectSessionByTokenHash (sha256 sid)))
           Anonymous (reply st))
  /\ sessions (db (world (snd (attachAuth request st)))) = sessions (db (world st)).
Proof.
  intros Hsid Hfault Hold.
  rewrite (attach_without_live_session _ _ _ Hsid Hfault Hold). split; reflexivity.
Qed.

(** ** What a touch changes *)

Lemma joinRows_touched (d : Db) (t : Z) (sessionId : string) (s : SessionRow) :
  joinRows (touched d t sessionId)
           (if String.eqb (s_id s) sessionId
            then mkSession (s_id s) (s_user_id s) (s_token_hash s) (s_expires_at s)
                           (Some t)
            else s)
  = joinRows d s.
Proof. unfold joinRows. now destruct (String.eqb (s_id s) sessionId). Qed.

Lemma touched_resolution (d : Db) (t : Z) (sessionId : string) (t' : Z)
    (tokenHash : string) :
  sessionByTokenHash (touched d t sessionId) t' tokenHash
  = sessionByTokenHash d t' tokenHash.
Proof.
  unfold sessionByTokenHash, selectSessions. f_equal.
  cbn [sessions touched].
  induction (sessions d) as [|s l IH]; [reflexivity|].
  cbn [map filter].
  assert (Hlive :
    liveWithHash t' tokenHash
      (if String.eqb (s_id s) sessionId
       then mkSession (s_id s) (s_user_id s) (s_token_hash s) (s_expires_at s) (Some t)
       else s)
    = liveWithHash t' tokenHash s)
    by (now destruct (String.eqb (s_id s) sessionId)).
  rewrite Hlive. destruct (liveWithHash t' tokenHash s); [|exact IH].
  cbn [flat_map]. now rewrite IH, joinRows_touched.
Qed.

(** X6.  Whatever way [attachAuth] ends, it changes at most the
    last-activity time of sessions: users and profiles are as before, there
    are as many sessions, and every fingerprint resolves, at every time, to
    what it resolved to before. *)
Theorem attach_keeps_resolution (request : Request) (st : State) :
  let after := db (world (snd (attachAuth request st))) in
  users after = users (db (world st))
  /\ profiles after = profiles (db (world st))
  /\ List.length (sessions after) = List.length (sessions (db (world st)))
  /\ forall t tokenHash,
       sessionByTokenHash after t tokenHash
       = sessionByTokenHash (db (world st)) t tokenHash.
Proof.
  rewrite attach_cases. cbv zeta.
  destruct (sidOf request) as [sid|]; [|repeat split].
  destruct (hd None (faults (world st))); [repeat split|].
  destruct (sessionByTokenHash (db (world st)) (now (world st)) (sha256 sid))
    as [row|]; [|repeat split].
  match goal with
  | |- context [hd None ?fs] => destruct (hd None fs)
  end; [repeat split|].
  cbn [snd world db sent_to]. repeat split.
  - cbn. apply length_map.
  - intros t tokenHash. apply touched_resolution.
Qed.

(** X7.  When [requireAuth] returns, either a principal is bound and the
    reply is untouched, or [request.auth] is null and the reply has been
    sent with status 401 and body [{error: 'Unauthorized'}]; it never
    returns with [request.auth] unassigned. *)
Theorem requireAuth_outcomes (request : Request) (st st' : State) :
  requireAuth request st = (Normal tt, st') ->
  (exists principal, auth st' = Bound principal /\ reply st' = reply st)
  \/ (auth st' = Anonymous
      /\ reply st' = mkReply (cookiePlugin (reply st)) 401 (headers (reply st))
                             (cookieCalls (reply st)) true (Some unauthorized)).
Proof.
  unfold requireAuth. intros Hrun.
  apply bind_inv in Hrun as [[] [st1 [Hattach Hrun]]].
  rewrite attach_cases in Hattach. cbv zeta in Hattach.
  destruct (sidOf request) as [sid|].
  2:{ injection Hattach as <-. cbn in Hrun. injection Hrun as <-. now right. }
  destruct (hd None (faults (world st))); [discriminate|].
  destruct (sessionByTokenHash (db (world st)) (now (world st)) (sha256 sid))
    as [row|].
  2:{ injection Hattach as <-. cbn in Hrun. injection Hrun as <-. now right. }
  match type of Hattach with
  | context [hd None ?fs] => destruct (hd None fs)
  end; [discriminate|].
  injection Hattach as <-. cbn in Hrun. injection Hrun as <-.
  left. eexists. split; reflexivity.
Qed.

(** ** Logging out *)

Lemma logout_with_token (request : Request) (plugin : bool) (w : World)
    (sid : string) :
  sidOf request = Some sid ->
  hd None (faults w) = None ->
  exists r,
    logoutUser request (start plugin w) =
    (Normal tt,
     mkState (sent_to w (withoutTokenHash (db w) (sha256 sid))
                      (DeleteSessionByTokenHash (sha256 sid)))
             Unset r).
Proof.
  intros Hsid Hfault. unfold logoutUser.
  erewrite bind_normal by (unfold lift; rewrite getSidFromRequest_spec; reflexivity).
  rewrite Hsid, (sidOf_truthy _ _ Hsid).
  unfold deleteSessionByTokenHash.
  erewrite bind_normal by (apply query_runs; exact Hfault).
  cbn [fst snd start world auth reply].
  destruct (clearSessionCookie_fresh (isProduction request) plugin
              (sent_to w (withoutTokenHash (db w) (sha256 sid))
                       (DeleteSessionByTokenHash (sha256 sid))) Unset)
    as [r [Hclear _]].
  rewrite (bind_normal _ _ _ _ _ Hclear). eexists. reflexivity.
Qed.

(** X8.  Logging out invalidates the token: after [logoutUser] with a
    token (the [DELETE] not being rejected), the fingerprint of the token
    resolves to no session at any time and [attachAuth] on a request with
    that token leaves it anonymous; the sessions with another fingerprint,
    the users and the profiles are as before. *)
Theorem logout_invalidates_token (request : Request) (plugin : bool) (w : World)
    (sid : string) :
  sidOf request = Some sid ->
  hd None (faults w) = None ->
  let after := world (snd (logoutUser request (start plugin w))) in
  (forall t, sessionByTokenHash (db after) t (sha256 sid) = None)
  /\ (forall request' plugin' t faults',
        sidOf request' = Some sid -> hd None faults' = None ->
        auth (snd (attachAuth request' (start plugin' (later t faults' after))))
        = Anonymous)
  /\ sessions (db after)
     = filter (fun s => negb (String.eqb (s_token_hash s) (sha256 sid)))
              (sessions (db w))
  /\ users (db after) = users (db w)
  /\ profiles (db after) = profiles (db w).
Proof.
  intros Hsid Hfault.
  destruct (logout_with_token request plugin w sid Hsid Hfault) as [r Hrun].
  rewrite Hrun. cbn [snd world]. cbv zeta.
  split; [intros t; apply no_session_with_hash, unused_after_logout|].
  split; [|repeat split].
  intros request' plugin' t faults' Hsid' Hfault'.
  rewrite attach_without_live_session with (sid := sid); try assumption;
    [reflexivity|].
  intros s Hin Hhash. exfalso.
  now apply (unused_after_logout (db w) (sha256 sid) s).
Qed.

(** X9.  [POST /logout] does not catch: when the request carries a token
    and the database rejects the [DELETE], the handler throws that error,
    and the reply is left as it was, neither sent nor clearing the cookie;
    the tables are unchanged. *)
Theorem logout_failure_propagates (request : Request) (plugin : bool) (w : World)
    (sid : string) (e : Exn) :
  sidOf request = Some sid ->
  hd None (faults w) = Some e ->
  logoutRoute request (start plugin w) =
  (Throw e,
   mkState (sent_to w (db w) (DeleteSessionByTokenHash (sha256 sid)))
           Unset (freshReply plugin)).
Proof.
  intros Hsid Hfault. unfold logoutRoute, logoutUser.
  erewrite bind_normal by (unfold lift; rewrite getSidFromRequest_spec; reflexivity).
  rewrite Hsid, (sidOf_truthy _ _ Hsid).
  unfold deleteSessionByTokenHash.
  erewrite bind_throw by (apply query_fails; exact Hfault). reflexivity.
Qed.

(** ** Logging in *)

Lemma sessionsOf_other (d : Db) (userId other : string) (row : SessionRow) :
  other <> userId -> s_user_id row = userId ->
  sessionsOf (withSession (withoutSessionsOf d userId) row) other = sessionsOf d other.
Proof.
  intros Hne Hrow. unfold sessionsOf. cbn. rewrite filter_app. cbn.
  assert (Hno : String.eqb (s_user_id row) other = false)
    by (apply String.eqb_neq; congruence).
  rewrite Hno, app_nil_r.
  induction (sessions d) as [|s l IH]; [reflexivity|]. cbn.
  destruct (String.eqb_spec (s_user_id s) userId) as [Heq|Hdiff]; cbn.
  - rewrite IH. assert (Hs : String.eqb (s_user_id s) other = false)
      by (apply String.eqb_neq; congruence).
    now rewrite Hs.
  - now rewrite IH.
Qed.

(** X10.  A login that answers 200 touches the sessions of that user only:
    users and profiles are unchanged, and every other user has the same
    stored sessions as before, in the same order. *)
Theorem login_spares_other_users (request : Request)
    (email password sid uuid : string) (plugin : bool) (w : World) (st' : State) :
  loginUser request email password sid uuid (start plugin w) = (Normal tt, st') ->
  statusCode (reply st') = 200%nat ->
  exists user,
    userByEmail (db w) email = Some user
    /\ users (db (world st')) = users (db w)
    /\ profiles (db (world st')) = profiles (db w)
    /\ forall other, other <> u_id user ->
         sessionsOf (db (world st')) other = sessionsOf (db w) other.
Proof.
  intros Hrun Hok.
  destruct (login_success_inv _ _ _ _ _ _ _ _ Hrun Hok)
    as [user [Huser [_ [Hdb _]]]].
  exists user. rewrite Hdb. repeat split; [exact Huser|].
  intros other Hne. now apply sessionsOf_other.
Qed.

Lemma login_insert_rejected (request : Request)
    (email password sid uuid : string) (plugin : bool) (w : World)
    (user : DbUser) (e : Exn) (rest : list (option Exn)) :
  faults w = None :: None :: Some e :: rest ->
  userByEmail (db w) email = Some user ->
  verifyPassword password (u_password_hash user) = true ->
  let expiry := (now w + SESSION_DAYS (env request) * 86400000)%Z in
  loginUser request email password sid uuid (start plugin w) =
  (Throw e,
   mkState (mkWorld (withoutSessionsOf (db w) (u_id user)) (now w) rest
                    (issued w ++ [SelectUserByEmail email;
                                  DeleteSessionsByUserId (u_id user);
                                  InsertSession uuid (u_id user) (sha256 sid) expiry]))
           Unset (freshReply plugin)).
Proof.
  destruct w as [d t fs log]. cbn [faults db now issued]. intros -> Huser Hvalid.
  unfold loginUser, findUserByEmail.
  erewrite bind_normal by (apply query_runs; reflexivity).
  cbn [fst snd start world db now]. rewrite Huser, Hvalid. cbn [negb].
  unfold deleteSessionsByUserId.
  erewrite bind_normal by (apply query_runs; reflexivity).
  unfold buildSessionExpiry, newDate. unfold bind at 1 2. unfold ret at 1.
  unfold createSession.
  erewrite bind_throw by (apply query_fails; reflexivity).
  cbv zeta. unfold sent_to. cbn. repeat rewrite <- app_assoc. reflexivity.
Qed.

Lemma no_sessions_left (d : Db) (userId : string) :
  sessionsOf (withoutSessionsOf d userId) userId = [].
Proof.
  unfold sessionsOf. cbn. apply filter_none.
  intros s Hin. apply filter_In in Hin as [_ Hkeep].
  now apply negb_true_iff in Hkeep.
Qed.

(** X11.  The delete and the insert of a login are two statements: when
    the user is found, the password verifies and the database rejects the
    [INSERT] of the new session, [loginUser] throws that error with the
    reply untouched, and the user, whose sessions the [DELETE] has already
    removed, is left without any stored session. *)
Theorem failed_insert_logs_user_out (request : Request)
    (email password sid uuid : string) (plugin : bool) (w : World)
    (user : DbUser) (e : Exn) (rest : list (option Exn)) :
  faults w = None :: None :: Some e :: rest ->
  userByEmail (db w) email = Some user ->
  verifyPassword password (u_password_hash user) = true ->
  let out := loginUser request email password sid uuid (start plugin w) in
  fst out = Throw e
  /\ reply (snd out) = freshReply plugin
  /\ sessionsOf (db (world (snd out))) (u_id user) = []
  /\ faults (world (snd out)) = rest.
Proof.
  intros Hfaults Huser Hvalid.
  rewrite (login_insert_rejected _ _ _ _ _ _ _ _ _ _ Hfaults Huser Hvalid).
  cbn. repeat split. apply no_sessions_left.
Qed.

(** ** The routes *)

Section WithValidation.

Variable V : Type.
Variable sendValidationError : Caught V -> M unit.

(** X12.  [POST /login] reports a unique violation as a taken email: when
    the database rejects the [INSERT] of the new session with code [23505],
    the route catches the error and returns normally, the reply is sent with
    status 409 and body [{error: 'Email already registered'}] and sets no
    cookie, [sendValidationError] is not consulted, and the user is left
    without any stored session. *)
Theorem login_route_unique_violation (request : Request)
    (email password sid uuid message : string) (plugin : bool) (w : World)
    (user : DbUser) (rest : list (option Exn)) :
  faults w = None :: None :: Some (DbError "23505" message) :: rest ->
  userByEmail (db w) email = Some user ->
  verifyPassword password (u_password_hash user) = true ->
  let out := loginRoute V sendValidationError request (inr (email, password))
                        sid uuid (start plugin w) in
  fst out = Normal tt
  /\ reply (snd out) = mkReply plugin 409 [] [] true (Some emailTaken)
  /\ sessionsOf (db (world (snd out))) (u_id user) = [].
Proof.
  intros Hfaults Huser Hvalid. unfold loginRoute, catch.
  rewrite (login_insert_rejected _ _ _ _ _ _ _ _ _ _ Hfaults Huser Hvalid).
  cbn. repeat split. apply no_sessions_left.
Qed.

End WithValidation.

(** ** Who am I *)

(** X13.  When [getMe] returns it has sent the reply, and it answers 200
    only for a bound principal whose user row still exists, with the id and
    email of that row and the profile of the principal; for a request
    without principal it answers 401 without any statement, and for a
    principal whose user row is gone it answers 401 although the session
    was live. *)
Theorem getMe_outcomes (st st' : State) :
  getMe st = (Normal tt, st') ->
  sent (reply st') = true
  /\ db (world st') = db (world st)
  /\ match auth st with
     | Bound principal =>
         match userById (db (world st)) (userId principal) with
         | Some user =>
             statusCode (reply st') = 200%nat
             /\ payload (reply st')
                = Some [("userId", JString (u_id user));
                        ("email", JString (u_email user));
                        ("profileId", nullable (profileId principal))]
         | None =>
             statusCode (reply st') = 401%nat
             /\ payload (reply st') = Some unauthorized
         end
     | _ =>
         statusCode (reply st') = 401%nat
         /\ payload (reply st') = Some unauthorized
         /\ world st' = world st
     end.
Proof.
  unfold getMe. intros Hrun.
  apply bind_inv in Hrun as [a [st1 [Hget Hrun]]].
  injection Hget as <- <-.
  destruct (auth st) as [| |principal].
  - injection Hrun as <-. repeat split.
  - injection Hrun as <-. repeat split.
  - apply bind_inv in Hrun as [found [st2 [Hfind Hrun]]].
    apply query_returned in Hfind as [-> ->]. cbn [fst snd] in *.
    destruct (userById (db (world st)) (userId principal)) as [user|];
      injection Hrun as <-; repeat split.
Qed.

(** ** Logging in, then asking who one is *)





End SessionMore.

(* ================================================================== *)
(** * The further properties on sample data *)
(* ================================================================== *)

Section MoreExamples.

Import Auth Account Samples.

Local Existing Instance toyCrypto.
Local Existing Instance toyDates.

(** A token full of characters that have to be escaped. *)
Lemma session_cookie_round_trip_witness :
  Text.wellFormed oddToken = true
  /\ truthyStr oddToken = true
  /\ encodeURIComponent oddToken = "a%20b%3Bc%3Dd%25%C3%A9"
  /\ parseCookieHeader (Some ("sid=" ++ encodeURIComponent oddToken)%string) "sid"
     = Normal (Some oddToken).
Proof.
  split; [reflexivity|]. split; [reflexivity|]. split; [reflexivity|].
  apply (session_cookie_round_trip oddToken false 0%Z (healthy oneUser 0) Unset);
    reflexivity.
Defined.

(** The error of a database probe that timed out after five seconds. *)
Lemma known_code_is_enough_witness :
  nth_error [Probe.timeoutError "5000"] 0 = Some (Probe.timeoutError "5000")
  /\ Classifier.code (Probe.timeoutError "5000") = Classifier.VStr "ETIMEDOUT"
  /\ In "ETIMEDOUT" Classifier.SERVICE_UNAVAILABLE_DB_CODES
  /\ Classifier.isServiceUnavailableError [Probe.timeoutError "5000"] (Classifier.VObj 0)
     = Some true.
Proof.
  assert (Hin : In "ETIMEDOUT" Classifier.SERVICE_UNAVAILABLE_DB_CODES)
    by (do 14 right; now left).
  split; [reflexivity|]. split; [reflexivity|]. split; [exact Hin|].
  apply (known_code_is_enough [Probe.timeoutError "5000"] 0
           (Probe.timeoutError "5000") "ETIMEDOUT"); [reflexivity | reflexivity | exact Hin].
Defined.

(** Alice's session expires at 5000; her cookie comes at 6000. *)
Lemma stale_token_is_anonymous_witness :
  let st := start false (healthy twoUsers 6000) in
  sidOf aliceCookie = Some "tok-1"
  /\ hd None (faults (world st)) = None
  /\ (forall s, In s (sessions (db (world st))) -> s_token_hash s = sha256 "tok-1" ->
                (s_expires_at s <= now (world st))%Z)
  /\ auth (snd (attachAuth aliceCookie st)) = Anonymous
  /\ sessions (db (world (snd (attachAuth aliceCookie st)))) = [aliceSession; bobSession].
Proof.
  cbv zeta.
  assert (Hold : forall s, In s (sessions (db (world (start false (healthy twoUsers 6000))))) ->
            s_token_hash s = sha256 "tok-1" ->
            (s_expires_at s <= now (world (start false (healthy twoUsers 6000))))%Z).
  { intros s [<-|[<-|[]]] Hhash; [cbn; lia | discriminate Hhash]. }
  split; [reflexivity|]. split; [reflexivity|]. split; [exact Hold|].
  destruct (stale_token_is_anonymous aliceCookie (start false (healthy twoUsers 6000))
              "tok-1" eq_refl eq_refl Hold) as [Hrun Hsessions].
  split; [now rewrite Hrun | exact Hsessions].
Defined.

(** A guarded request without cookie. *)
Lemma requireAuth_outcomes_witness :
  let st := start false (healthy twoUsers 1000) in
  let st' := snd (requireAuth (plainRequest HAbsent) st) in
  requireAuth (plainRequest HAbsent) st = (Normal tt, st')
  /\ ((exists principal, auth st' = Bound principal /\ reply st' = reply st)
      \/ (auth st' = Anonymous
          /\ reply st' = mkReply (cookiePlugin (reply st)) 401 (headers (reply st))
                                 (cookieCalls (reply st)) true (Some unauthorized))).
Proof.
  cbv zeta. split; [reflexivity|].
  apply (requireAuth_outcomes (plainRequest HAbsent)). reflexivity.
Defined.

(** Alice logs out; Bob's session stays. *)
Lemma logout_invalidates_token_witness :
  let w := healthy twoUsers 1000 in
  let after := world (snd (logoutUser aliceCookie (start false w))) in
  sidOf aliceCookie = Some "tok-1"
  /\ hd None (faults w) = None
  /\ sessionByTokenHash (db after) 1000 (sha256 "tok-1") = None
  /\ sessions (db after) = [bobSession].
Proof.
  cbv zeta. split; [reflexivity|]. split; [reflexivity|].
  destruct (logout_invalidates_token aliceCookie false (healthy twoUsers 1000) "tok-1"
              eq_refl eq_refl) as [Hgone [_ [Hkept _]]].
  split; [apply Hgone | exact Hkept].
Defined.

(** The database is shutting down when Alice logs out. *)
Lemma logout_failure_propagates_witness :
  let w := mkWorld twoUsers 1000 [Some adminShutdown] [] in
  sidOf aliceCookie = Some "tok-1"
  /\ hd None (faults w) = Some adminShutdown
  /\ logoutRoute aliceCookie (start false w)
     = (Throw adminShutdown,
        mkState (sent_to w (db w) (DeleteSessionByTokenHash (sha256 "tok-1")))
                Unset (freshReply false)).
Proof.
  cbv zeta. split; [reflexivity|]. split; [reflexivity|].
  apply (logout_failure_propagates aliceCookie false
           (mkWorld twoUsers 1000 [Some adminShutdown] []) "tok-1" adminShutdown);
    reflexivity.
Defined.

(** Alice logs in again; Bob keeps his session. *)
Lemma login_spares_other_users_witness :
  let w := healthy twoUsers 1000 in
  let st' := snd (loginUser (plainRequest HAbsent) "alice@example.com" "hunter2"
                            "tok-9" "s-9" (start false w)) in
  loginUser (plainRequest HAbsent) "alice@example.com" "hunter2" "tok-9" "s-9"
            (start false w) = (Normal tt, st')
  /\ statusCode (reply st') = 200%nat
  /\ sessionsOf (db (world st')) "u-2" = [bobSession].
Proof.
  cbv zeta.
  set (st' := snd (loginUser (plainRequest HAbsent) "alice@example.com" "hunter2"
                             "tok-9" "s-9" (start false (healthy twoUsers 1000)))).
  assert (Hrun : loginUser (plainRequest HAbsent) "alice@example.com" "hunter2"
                           "tok-9" "s-9" (start false (healthy twoUsers 1000))
                 = (Normal tt, st')) by reflexivity.
  assert (Hok : statusCode (reply st') = 200%nat) by reflexivity.
  split; [exact Hrun|]. split; [exact Hok|].
  destruct (login_spares_other_users _ _ _ _ _ _ _ _ Hrun Hok)
    as [user [Huser [_ [_ Hothers]]]].
  injection Huser as <-.
  rewrite (Hothers "u-2"); [reflexivity | discriminate].
Defined.

(** The database rejects the third statement of Alice's login. *)
Lemma failed_insert_logs_user_out_witness :
  let w := mkWorld twoUsers 1000 [None; None; Some adminShutdown] [] in
  let out := loginUser (plainRequest HAbsent) "alice@example.com" "hunter2"
                       "tok-9" "s-9" (start false w) in
  faults w = [None; None; Some adminShutdown]
  /\ userByEmail (db w) "alice@example.com" = Some alice
  /\ verifyPassword "hunter2" (u_password_hash alice) = true
  /\ fst out = Throw adminShutdown
  /\ sessionsOf (db (world (snd out))) "u-1" = [].
Proof.
  cbv zeta.
  assert (Hvalid : verifyPassword "hunter2" (u_password_hash alice) = true)
    by reflexivity.
  assert (Huser : userByEmail twoUsers "alice@example.com" = Some alice)
    by reflexivity.
  split; [reflexivity|]. split; [exact Huser|]. split; [exact Hvalid|].
  destruct (failed_insert_logs_user_out (plainRequest HAbsent)
              "alice@example.com" "hunter2" "tok-9" "s-9" false
              (mkWorld twoUsers 1000 [None; None; Some adminShutdown] [])
              alice adminShutdown [] eq_refl Huser Hvalid)
    as [Hthrow [_ [Hnone _]]].
  split; [exact Hthrow | exact Hnone].
Defined.

(** The same rejection, with the code of a unique violation, seen from
    the route. *)
Lemma login_route_unique_violation_witness :
  let w := mkWorld twoUsers 1000 [None; None; Some uniqueViolation] [] in
  let out := loginRoute unit answer400 (plainRequest HAbsent)
                        (inr ("alice@example.com", "hunter2")) "tok-9" "s-9"
                        (start false w) in
  faults w = [None; None; Some (DbError "23505" "duplicate key value")]
  /\ userByEmail (db w) "alice@example.com" = Some alice
  /\ verifyPassword "hunter2" (u_password_hash alice) = true
  /\ fst out = Normal tt
  /\ reply (snd out) = mkReply false 409 [] [] true (Some emailTaken).
Proof.
  cbv zeta.
  assert (Hvalid : verifyPassword "hunter2" (u_password_hash alice) = true)
    by reflexivity.
  assert (Huser : userByEmail twoUsers "alice@example.com" = Some alice)
    by reflexivity.
  split; [reflexivity|]. split; [exact Huser|]. split; [exact Hvalid|].
  destruct (login_route_unique_violation unit answer400 (plainRequest HAbsent)
              "alice@example.com" "hunter2" "tok-9" "s-9" "duplicate key value" false
              (mkWorld twoUsers 1000 [None; None; Some uniqueViolation] [])
              alice [] eq_refl Huser Hvalid)
    as [Hnormal [Hreply _]].
  split; [exact Hnormal | exact Hreply].
Defined.

(** A principal bound for a user whose row is gone. *)
Lemma getMe_outcomes_witness :
  let st := mkState (healthy (mkDb [bob] [aliceSession] []) 1000)
                    (Bound alicePrincipal) (freshReply false) in
  getMe st = (Normal tt, snd (getMe st))
  /\ statusCode (reply (snd (getMe st))) = 401%nat
  /\ payload (reply (snd (getMe st))) = Some unauthorized.
Proof.
  cbv zeta.
  set (st := mkState (healthy (mkDb [bob] [aliceSession] []) 1000)
                     (Bound alicePrincipal) (freshReply false)).
  assert (Hrun : getMe st = (Normal tt, snd (getMe st))) by reflexivity.
  split; [exact Hrun|].
  destruct (getMe_outcomes st (snd (getMe st)) Hrun) as [_ [_ Hcase]].
  exact Hcase.
Defined.


End MoreExamples.
